(** * A backtracking regular-expression matcher (regex.py)

    Shallow embedding of [regex_match], [regex_match_full],
    [regex_match_prefix] and [regex_search], and the properties of the
    engine stated in the specification.

    Python strings are modelled as lists of characters (of type [ascii]),
    indexing as a partial operation that raises [IndexError] out of range,
    slicing with Python's clamping of the bounds.  The recursive matchers run in a small
    monad that records every invocation of a core matcher (in call order),
    propagates exceptions and stops when the recursion budget is used up. *)

From Stdlib Require Import String Ascii List ZArith Lia Bool Arith.
Import ListNotations.
Open Scope list_scope.

(** ** Python strings *)

Definition str := list ascii.

Definition lit (s : string) : str := list_ascii_of_string s.

Arguments lit s%_string.

Definition len (s : str) : nat := length s.

(** Truth value of a string: [if s] holds when [s] is not empty. *)
Definition truthy (s : str) : bool :=
  match s with
  | [] => false
  | _ :: _ => true
  end.

(** [c in chars] for a one-character string [c]. *)
Definition in_chars (c : ascii) (chars : str) : bool :=
  existsb (Ascii.eqb c) chars.

(** A slice bound [i] of a string of length [n]: a negative bound counts
    from the end, and every bound is clamped to [0..n]. *)
Definition clamp (n i : Z) : Z :=
  if (i <? 0)%Z then Z.max 0 (n + i) else Z.min i n.

(** [s[lo:hi]], an omitted bound being [None]. *)
Definition slice (s : str) (lo hi : option Z) : str :=
  let n := Z.of_nat (length s) in
  let a := match lo with Some i => clamp n i | None => 0%Z end in
  let b := match hi with Some j => clamp n j | None => n end in
  firstn (Z.to_nat (b - a)) (skipn (Z.to_nat a) s).

(** [s[i:]] *)
Definition slice_from (s : str) (i : Z) : str := slice s (Some i) None.

(** [s[:j]] *)
Definition slice_to (s : str) (j : Z) : str := slice s None (Some j).

(** [s[i:j]] *)
Definition slice_mid (s : str) (i j : Z) : str := slice s (Some i) (Some j).

Fixpoint is_prefix (p s : str) : bool :=
  match p, s with
  | [], _ => true
  | _ :: _, [] => false
  | a :: p', b :: s' => Ascii.eqb a b && is_prefix p' s'
  end.

Definition startswith (s p : str) : bool := is_prefix p s.

Definition endswith (s p : str) : bool := is_prefix (rev p) (rev s).

(** [range(n)] *)
Definition range (n : nat) : list nat := seq 0 n.

(** ** Runs of the matcher *)

Inductive exn : Type := IndexError.

(** One invocation of a core matcher, with its arguments. *)
Inductive event : Type :=
| EFull (regex string : str)
| EPrefix (regex string : str).

Inductive outcome (A : Type) : Type :=
| Ret (a : A)
| Raise (e : exn)
| OutOfFuel.

Arguments Ret {A} a.
Arguments Raise {A} e.
Arguments OutOfFuel {A}.

Record run (A : Type) : Type := Run { trace : list event; result : outcome A }.

Arguments Run {A} trace result.
Arguments trace {A} r.
Arguments result {A} r.

Definition ret {A : Type} (a : A) : run A := Run [] (Ret a).

Definition raise {A : Type} (e : exn) : run A := Run [] (Raise e).

Definition out_of_fuel {A : Type} : run A := Run [] OutOfFuel.

Definition bind {A B : Type} (m : run A) (f : A -> run B) : run B :=
  match result m with
  | Ret a => Run (trace m ++ trace (f a)) (result (f a))
  | Raise e => Run (trace m) (Raise e)
  | OutOfFuel => Run (trace m) OutOfFuel
  end.

(** Record the invocation [e], then run [m]. *)
Definition enter {A : Type} (e : event) (m : run A) : run A :=
  Run (e :: trace m) (result m).

Notation "x <- m ;; k" := (bind m (fun x => k))
  (at level 61, m at next level, right associativity).

(** [s[i]] for [0 <= i]. *)
Definition index (s : str) (i : nat) : run ascii :=
  match nth_error s i with
  | Some c => ret c
  | None => raise IndexError
  end.

(** [a and b] where [a] is already a truth value: [b] is evaluated only
    when [a] holds. *)
Definition and_then (a : bool) (b : run bool) : run bool :=
  if a then b else ret false.

(** ** The matcher *)

(** [regex_match(r, s)], on two one-character strings. *)
Definition regex_match (r s : ascii) : bool :=
  if Ascii.eqb r "."%char then true else Ascii.eqb r s.

(** Body of [regex_match_full]; [self] is the function itself at its
    recursive calls. *)
Definition regex_match_full_body (self : str -> str -> run bool)
    (regex string : str) : run bool :=
  if negb (truthy regex) then ret (negb (truthy string))
  else
    r0 <- index regex 0 ;;
    if Ascii.eqb r0 "\"%char && (2 <=? len regex) then
      hit <- and_then (truthy string)
               (r1 <- index regex 1 ;; s0 <- index string 0 ;;
                ret (Ascii.eqb r1 s0)) ;;
      if hit then self (slice_from regex 2) (slice_from string 1)
      else ret false
    else
      quantified <- and_then (1 <? len regex)
                      (r1 <- index regex 1 ;; ret (in_chars r1 (lit "?*+"))) ;;
      if quantified then
        char <- index regex 0 ;;
        meta <- index regex 1 ;;
        skipped <- and_then (in_chars meta (lit "?*"))
                     (self (slice_from regex 2) string) ;;
        if skipped then ret true
        else
          hit <- and_then (truthy string)
                   (s0 <- index string 0 ;; ret (regex_match char s0)) ;;
          if hit then
            once <- self (slice_from regex 2) (slice_from string 1) ;;
            if once then ret true
            else
              again <- and_then (in_chars meta (lit "*+"))
                         (self regex (slice_from string 1)) ;;
              if again then ret true else ret false
          else ret false
      else
        hit <- and_then (truthy string)
                 (r0' <- index regex 0 ;; s0 <- index string 0 ;;
                  ret (regex_match r0' s0)) ;;
        if hit then self (slice_from regex 1) (slice_from string 1)
        else ret false.

(** Body of [regex_match_prefix]. *)
Definition regex_match_prefix_body (self : str -> str -> run bool)
    (regex string : str) : run bool :=
  if negb (truthy regex) then ret true
  else
    r0 <- index regex 0 ;;
    if Ascii.eqb r0 "\"%char && (2 <=? len regex) then
      hit <- and_then (truthy string)
               (r1 <- index regex 1 ;; s0 <- index string 0 ;;
                ret (Ascii.eqb r1 s0)) ;;
      if hit then self (slice_from regex 2) (slice_from string 1)
      else ret false
    else
      quantified <- and_then (1 <? len regex)
                      (r1 <- index regex 1 ;; ret (in_chars r1 (lit "?*+"))) ;;
      if quantified then
        char <- index regex 0 ;;
        meta <- index regex 1 ;;
        skipped <- and_then (in_chars meta (lit "?*"))
                     (self (slice_from regex 2) string) ;;
        if skipped then ret true
        else
          hit <- and_then (truthy string)
                   (s0 <- index string 0 ;; ret (regex_match char s0)) ;;
          if hit then
            once <- self (slice_from regex 2) (slice_from string 1) ;;
            if once then ret true
            else
              again <- and_then (in_chars meta (lit "*+"))
                         (self regex (slice_from string 1)) ;;
              if again then ret true else ret false
          else ret false
      else
        hit <- and_then (truthy string)
                 (r0' <- index regex 0 ;; s0 <- index string 0 ;;
                  ret (regex_match r0' s0)) ;;
        if hit then self (slice_from regex 1) (slice_from string 1)
        else ret false.

(** The recursion, with a budget of nested calls. *)
Fixpoint regex_match_full_fuel (fuel : nat) (regex string : str) : run bool :=
  match fuel with
  | O => out_of_fuel
  | S fuel' =>
      enter (EFull regex string)
        (regex_match_full_body (regex_match_full_fuel fuel') regex string)
  end.

Fixpoint regex_match_prefix_fuel (fuel : nat) (regex string : str) : run bool :=
  match fuel with
  | O => out_of_fuel
  | S fuel' =>
      enter (EPrefix regex string)
        (regex_match_prefix_body (regex_match_prefix_fuel fuel') regex string)
  end.

(** Nesting depth that a call on [regex] and [string] never exceeds. *)
Definition depth (regex string : str) : nat := len regex + len string.

Definition regex_match_full (regex string : str) : run bool :=
  regex_match_full_fuel (S (depth regex string)) regex string.

Definition regex_match_prefix (regex string : str) : run bool :=
  regex_match_prefix_fuel (S (depth regex string)) regex string.

(** [for i in range(len(string) + 1): if attempt(i): return True] followed by
    [return False]. *)
Fixpoint scan (offsets : list nat) (attempt : nat -> run bool) : run bool :=
  match offsets with
  | [] => ret false
  | i :: rest =>
      found <- attempt i ;;
      if found then ret true else scan rest attempt
  end.

(** [regex_search], over the two core matchers. *)
Definition regex_search_with (full prefix : str -> str -> run bool)
    (regex string : str) : run bool :=
  if negb (truthy regex) then ret true
  else if startswith regex (lit "^") && endswith regex (lit "$") then
    full (slice_mid regex 1 (-1)) string
  else if startswith regex (lit "^") then
    prefix (slice_from regex 1) string
  else if endswith regex (lit "$") then
    let core_regex := slice_to regex (-1) in
    scan (range (len string + 1))
      (fun i => full core_regex (slice_from string (Z.of_nat i)))
  else
    scan (range (len string + 1))
      (fun i => prefix regex (slice_from string (Z.of_nat i))).

Definition regex_search_fuel (fuel : nat) (regex string : str) : run bool :=
  regex_search_with (regex_match_full_fuel fuel) (regex_match_prefix_fuel fuel)
    regex string.

Definition regex_search (regex string : str) : run bool :=
  regex_search_with regex_match_full regex_match_prefix regex string.

(** ** The quantified-atom step, as the specification words it *)

Section QuantifiedStep.

Variable matcher : str -> str -> run bool.

(** Skip: the atom is matched zero times. *)
Definition skip (rest subject : str) : run bool := matcher rest subject.

(** Consume: one subject character matching the atom, then the rest of the
    pattern, or, when [repeat] is allowed, the same quantified pattern
    again. *)
Definition consume (repeat : bool) (atom quantifier : ascii)
    (rest subject : str) : run bool :=
  match subject with
  | [] => ret false
  | x :: subject' =>
      if regex_match atom x then
        once <- matcher rest subject' ;;
        if once then ret true
        else if repeat then matcher (atom :: quantifier :: rest) subject'
        else ret false
      else ret false
  end.

(** Policy by quantifier. *)
Definition quantified_step (atom quantifier : ascii) (rest subject : str)
    : run bool :=
  if Ascii.eqb quantifier "?"%char then
    skipped <- skip rest subject ;;
    if skipped then ret true
    else consume false atom quantifier rest subject
  else if Ascii.eqb quantifier "*"%char then
    skipped <- skip rest subject ;;
    if skipped then ret true
    else consume true atom quantifier rest subject
  else consume true atom quantifier rest subject.

(** Plain-atom step. *)
Definition plain_step (atom : ascii) (rest subject : str) : run bool :=
  match subject with
  | [] => ret false
  | x :: subject' =>
      if regex_match atom x then matcher rest subject' else ret false
  end.

(** Escape step. *)
Definition escape_step (literal : ascii) (rest subject : str) : run bool :=
  match subject with
  | [] => ret false
  | x :: subject' =>
      if Ascii.eqb literal x then matcher rest subject' else ret false
  end.

(** One step of a core matcher on the shape of the pattern, [base] being
    the answer on the empty pattern. *)
Definition core_step (base : str -> bool) (pattern subject : str)
    : run bool :=
  match pattern with
  | [] => ret (base subject)
  | c :: [] => plain_step c [] subject
  | c :: (d :: rest) as tail =>
      if Ascii.eqb c "\"%char then escape_step d rest subject
      else if in_chars d (lit "?*+") then quantified_step c d rest subject
      else plain_step c tail subject
  end.

End QuantifiedStep.

(** A run that returns a value: no exception, budget not used up. *)
Definition returns {A : Type} (m : run A) : Prop :=
  exists t a, m = Run t (Ret a).

(** ** Boolean answers *)

(** The boolean a run returns. *)
Definition value (m : run bool) : bool :=
  match result m with
  | Ret b => b
  | _ => false
  end.

Definition full_value (regex string : str) : bool :=
  value (regex_match_full regex string).

Definition prefix_value (regex string : str) : bool :=
  value (regex_match_prefix regex string).

(** The step of a core matcher on answers: what [core_step] returns when
    its recursive calls return the answers [v]. *)
Definition core_value (v : str -> str -> bool) (base : str -> bool)
    (pattern subject : str) : bool :=
  match pattern with
  | [] => base subject
  | c :: [] =>
      match subject with
      | [] => false
      | x :: subject' => regex_match c x && v [] subject'
      end
  | c :: (d :: rest) as tail =>
      if Ascii.eqb c "\"%char then
        match subject with
        | [] => false
        | x :: subject' => Ascii.eqb d x && v rest subject'
        end
      else if in_chars d (lit "?*+") then
        (in_chars d (lit "?*") && v rest subject)
        || match subject with
           | [] => false
           | x :: subject' =>
               regex_match c x
               && (v rest subject'
                   || (in_chars d (lit "*+") && v pattern subject'))
           end
      else
        match subject with
        | [] => false
        | x :: subject' => regex_match c x && v tail subject'
        end
  end.

(** The call of a budgeted function [f] with the budget [depth] asks for. *)
Definition settled (f : nat -> str -> str -> run bool) (regex string : str)
    : run bool :=
  f (S (depth regex string)) regex string.

(** ** Patterns that end in a lone escape character *)

(** Reading the pattern atom by atom the way the core matchers do (an escape
    pair, an atom with its quantifier, a plain atom), the last atom is a
    [\] with no character after it. *)
Fixpoint ends_with_lone_escape (pattern : str) : bool :=
  match pattern with
  | [] => false
  | c :: tail =>
      match tail with
      | [] => Ascii.eqb c "\"%char
      | d :: rest =>
          if Ascii.eqb c "\"%char then ends_with_lone_escape rest
          else if in_chars d (lit "?*+") then ends_with_lone_escape rest
          else ends_with_lone_escape tail
      end
  end.

(** The number of [\] at the end of a pattern. *)
Fixpoint trailing_escapes (pattern : str) : nat :=
  match pattern with
  | [] => 0
  | _ :: tail =>
      if forallb (fun c => Ascii.eqb c "\"%char) pattern then length pattern
      else trailing_escapes tail
  end.

(** ** Recursive calls of one step *)

(** A stand-in for the recursive calls of a body: it records its arguments
    and returns the answer [answer] gives, whatever that is. *)
Definition probe (ev : str -> str -> event) (answer : str -> str -> bool)
    (regex string : str) : run bool :=
  Run [ev regex string] (Ret (answer regex string)).

Definition event_args (e : event) : str * str :=
  match e with
  | EFull regex string => (regex, string)
  | EPrefix regex string => (regex, string)
  end.

(** Lexicographic order on (length of subject, length of pattern). *)
Definition lex_lt (a b : str * str) : Prop :=
  len (snd a) < len (snd b)
  \/ (len (snd a) = len (snd b) /\ len (fst a) < len (fst b)).

(** ** The language of a pattern *)

Inductive quantifier : Type := One | Optional | Star | Plus.

(** An atom of the pattern, as the core matchers read it: an escape pair, or
    a character with the quantifier that follows it. *)
Inductive token : Type :=
| Escaped (literal : ascii)
| Atom (c : ascii) (q : quantifier).

Definition quantifier_of (meta : ascii) : quantifier :=
  if Ascii.eqb meta "?"%char then Optional
  else if Ascii.eqb meta "*"%char then Star
  else Plus.

(** The atoms of a pattern, in the order and with the precedence of the
    tests of the core matchers: escape pair, quantified atom, plain atom. *)
Fixpoint tokens (pattern : str) : list token :=
  match pattern with
  | [] => []
  | c :: tail =>
      match tail with
      | [] => [Atom c One]
      | d :: rest =>
          if Ascii.eqb c "\"%char then Escaped d :: tokens rest
          else if in_chars d (lit "?*+") then
            Atom c (quantifier_of d) :: tokens rest
          else Atom c One :: tokens tail
      end
  end.

(** One subject character against an atom. *)
Definition token_char (t : token) (x : ascii) : bool :=
  match t with
  | Escaped literal => Ascii.eqb literal x
  | Atom c _ => regex_match c x
  end.

Definition token_quantifier (t : token) : quantifier :=
  match t with
  | Escaped _ => One
  | Atom _ q => q
  end.

(** The chunks of subject an atom stands for. *)
Definition token_accepts (t : token) (chunk : str) : Prop :=
  Forall (fun x => token_char t x = true) chunk
  /\ match token_quantifier t with
     | One => length chunk = 1
     | Optional => length chunk <= 1
     | Star => True
     | Plus => 1 <= length chunk
     end.

(** The subjects a sequence of atoms stands for: one chunk per atom. *)
Inductive matches : list token -> str -> Prop :=
| matches_nil : matches [] []
| matches_cons (t : token) (ts : list token) (chunk rest : str) :
    token_accepts t chunk -> matches ts rest ->
    matches (t :: ts) (chunk ++ rest).

(** The pattern that is left once [regex_search] has taken the anchors
    off. *)
Definition core_pattern (regex : str) : str :=
  if startswith regex (lit "^") && endswith regex (lit "$") then
    slice_mid regex 1 (-1)
  else if startswith regex (lit "^") then slice_from regex 1
  else if endswith regex (lit "$") then slice_to regex (-1)
  else regex.

(** A character with no special meaning for the core matchers. *)
Definition ordinary (c : ascii) : bool := negb (in_chars c (lit ".\?*+")).

(** A pattern in which no atom carries a quantifier. *)
Definition unquantified (pattern : str) : bool :=
  forallb (fun t => match token_quantifier t with
                    | One => true
                    | _ => false
                    end) (tokens pattern).

(** ** The console program *)

(** [s.split(sep)] for a one-character separator. *)
Fixpoint split_on (sep : ascii) (s : str) : list str :=
  match s with
  | [] => [[]]
  | c :: s' =>
      if Ascii.eqb c sep then [] :: split_on sep s'
      else match split_on sep s' with
           | part :: parts => (c :: part) :: parts
           | [] => [[c]]
           end
  end.

(** [regex, text = parts]: unpacking needs exactly two values, and raises
    [ValueError] ([None]) otherwise. *)
Definition unpack_pair (parts : list str) : option (str * str) :=
  match parts with
  | [regex; text] => Some (regex, text)
  | _ => None
  end.

(** [str(b)] *)
Definition str_of_bool (b : bool) : str :=
  if b then lit "True" else lit "False".

(** [main], from the line [input()] returns to the text it prints.  Both
    [ValueError] (from the unpacking) and [IndexError] are caught and print
    [str(False)]. *)
Definition main (line : str) : outcome str :=
  match unpack_pair (split_on "|"%char line) with
  | None => Ret (str_of_bool false)
  | Some (regex, text) =>
      match result (regex_search regex text) with
      | Ret b => Ret (str_of_bool b)
      | Raise IndexError => Ret (str_of_bool false)
      | OutOfFuel => OutOfFuel
      end
  end.

(** [t] is what is left of [s] after some characters: [t == s[i:]] for some
    [i]. *)
Definition is_suffix (t s : str) : Prop := exists a, s = a ++ t.

(** An atom that may stand for no character at all. *)
Definition nullable (t : token) : bool :=
  match token_quantifier t with
  | Optional | Star => true
  | One | Plus => false
  end.

(** An atom that stands for one character at most. *)
Definition bounded (t : token) : bool :=
  match token_quantifier t with
  | One | Optional => true
  | Star | Plus => false
  end.

(** The number of atoms that need a character of their own. *)
Definition min_length (ts : list token) : nat :=
  length (filter (fun t => negb (nullable t)) ts).

(** * Properties *)

(** ** Laws of runs *)

Lemma bind_ret_l {A B : Type} (a : A) (f : A -> run B) :
  bind (ret a) f = f a.
Proof. unfold bind, ret; simpl. destruct (f a); reflexivity. Qed.

Lemma bind_ret_bool (m : run bool) :
  (b <- m ;; if b then ret true else ret false) = m.
Proof.
  destruct m as [t [[|]|e|]]; unfold bind; simpl;
    rewrite ?app_nil_r; reflexivity.
Qed.

Lemma bind_ext {A B : Type} (m : run A) (f g : A -> run B) :
  (forall a, f a = g a) -> bind m f = bind m g.
Proof.
  intros H. unfold bind. destruct (result m); try reflexivity.
  rewrite H. reflexivity.
Qed.

Lemma bind_Ret {A B : Type} (t : list event) (a : A) (f : A -> run B) :
  bind (Run t (Ret a)) f = Run (t ++ trace (f a)) (result (f a)).
Proof. reflexivity. Qed.

Lemma run_eta {A : Type} (m : run A) : Run (trace m) (result m) = m.
Proof. destruct m; reflexivity. Qed.

(** ** Slices *)

Lemma slice_from_nat (s : str) (i : nat) :
  slice_from s (Z.of_nat i) = skipn i s.
Proof.
  unfold slice_from, slice, clamp.
  destruct (Z.ltb_spec (Z.of_nat i) 0) as [E|_]; [lia|].
  destruct (Nat.le_gt_cases i (length s)) as [Hle|Hgt].
  - rewrite Z.min_l by lia. rewrite Nat2Z.id.
    apply firstn_all2. rewrite length_skipn. lia.
  - rewrite Z.min_r by lia. rewrite Nat2Z.id.
    rewrite (skipn_all2 s (n := i)) by lia.
    rewrite skipn_all. apply firstn_nil.
Qed.

Lemma slice_from_1 (x : ascii) (s : str) : slice_from (x :: s) 1 = s.
Proof. exact (slice_from_nat (x :: s) 1). Qed.

Lemma slice_from_2 (x y : ascii) (s : str) : slice_from (x :: y :: s) 2 = s.
Proof. exact (slice_from_nat (x :: y :: s) 2). Qed.

Lemma slice_to_last (s : str) : slice_to s (-1) = removelast s.
Proof.
  unfold slice_to, slice, clamp. change (-1 <? 0)%Z with true. cbv iota.
  rewrite removelast_firstn_len. simpl skipn. f_equal. lia.
Qed.

Lemma slice_mid_inner (x : ascii) (s : str) :
  slice_mid (x :: s) 1 (-1) = removelast s.
Proof.
  unfold slice_mid, slice, clamp.
  change (-1 <? 0)%Z with true. change (1 <? 0)%Z with false. cbv iota.
  rewrite removelast_firstn_len.
  replace (Z.to_nat (Z.min 1 (Z.of_nat (length (x :: s))))) with 1%nat
    by (simpl length; lia).
  simpl skipn. f_equal. simpl length. lia.
Qed.

(** ** The bodies are the step on the shape of the pattern *)

Lemma in_quantifiers (d : ascii) :
  in_chars d (lit "?*+") = true ->
  d = "?"%char \/ d = "*"%char \/ d = "+"%char.
Proof.
  unfold in_chars. simpl. intros Hq.
  repeat (apply orb_true_iff in Hq; destruct Hq as [Hq|Hq]);
    try discriminate; apply Ascii.eqb_eq in Hq; auto.
Qed.

Ltac step_body :=
  repeat first
    [ rewrite bind_ret_l
    | rewrite slice_from_1
    | rewrite slice_from_2
    | rewrite bind_ret_bool
    | progress (cbn [and_then index nth_error truthy negb len length
                     Nat.leb Nat.ltb andb]) ].

Lemma core_step_cases (body : (str -> str -> run bool) -> str -> str -> run bool)
    (base : str -> bool) :
  (forall self regex string,
      body self regex string =
      if negb (truthy regex) then ret (base string)
      else regex_match_full_body self regex string) ->
  forall self regex string,
    body self regex string = core_step self base regex string.
Proof.
  intros Hbody self regex string. rewrite Hbody.
  destruct regex as [|c [|d rest]]; [reflexivity| |].
  - unfold regex_match_full_body, core_step, plain_step.
    step_body. rewrite andb_false_r.
    destruct string as [|x s']; step_body; reflexivity.
  - unfold regex_match_full_body, core_step.
    step_body. rewrite andb_true_r.
    destruct (Ascii.eqb c "\"%char).
    + unfold escape_step. destruct string as [|x s']; step_body; reflexivity.
    + step_body. destruct (in_chars d (lit "?*+")) eqn:Hq.
      * unfold quantified_step, skip, consume.
        destruct (in_quantifiers d Hq) as [->|[->| ->]]; cbn [in_chars existsb lit
          list_ascii_of_string Ascii.eqb Bool.eqb orb andb];
          step_body; try (apply bind_ext; intros [|]; try reflexivity);
          destruct string as [|x s']; step_body; try reflexivity;
          destruct (regex_match c x); try reflexivity;
          try (apply bind_ext; intros [|]; reflexivity).
      * unfold plain_step. destruct string as [|x s']; step_body; reflexivity.
Qed.

Lemma regex_match_full_body_step self regex string :
  regex_match_full_body self regex string =
  core_step self (fun s => negb (truthy s)) regex string.
Proof.
  apply (core_step_cases regex_match_full_body).
  intros ? r ?. destruct r; reflexivity.
Qed.

Lemma regex_match_prefix_body_step self regex string :
  regex_match_prefix_body self regex string =
  core_step self (fun _ => true) regex string.
Proof.
  apply (core_step_cases regex_match_prefix_body).
  intros ? r ?. destruct r; reflexivity.
Qed.

(** ** Runs that return *)

Lemma returns_ret {A : Type} (a : A) : returns (ret a).
Proof. exists [], a. reflexivity. Qed.

Lemma returns_bind {A B : Type} (m : run A) (f : A -> run B) :
  returns m -> (forall a, returns (f a)) -> returns (bind m f).
Proof.
  intros (t & a & ->) Hf. destruct (Hf a) as (t' & b & E).
  exists (t ++ t'), b. rewrite bind_Ret, E. reflexivity.
Qed.

Lemma returns_enter {A : Type} (e : event) (m : run A) :
  returns m -> returns (enter e m).
Proof. intros (t & a & ->). exists (e :: t), a. reflexivity. Qed.

Lemma returns_result {A : Type} (m : run A) :
  returns m <-> exists a, result m = Ret a.
Proof.
  split.
  - intros (t & a & ->). exists a. reflexivity.
  - intros (a & E). exists (trace m), a. rewrite <- E. symmetry. apply run_eta.
Qed.

(** ** One step only calls on smaller arguments *)

Ltac smaller := unfold depth, len; simpl length; lia.

Section CoreStep.

Variable base : str -> bool.

Lemma core_step_ext (self1 self2 : str -> str -> run bool) (r s : str) :
  (forall r' s', depth r' s' < depth r s -> self1 r' s' = self2 r' s') ->
  core_step self1 base r s = core_step self2 base r s.
Proof.
  intros H.
  assert (Hplain : forall c rest, depth rest s <= depth r s ->
            plain_step self1 c rest s = plain_step self2 c rest s).
  { intros c rest Hle. unfold plain_step. destruct s as [|x s']; [reflexivity|].
    destruct (regex_match c x); [|reflexivity]. apply H.
    revert Hle. smaller. }
  assert (Hconsume : forall b c d rest, r = c :: d :: rest ->
            consume self1 b c d rest s = consume self2 b c d rest s).
  { intros b c d rest ->. unfold consume. destruct s as [|x s']; [reflexivity|].
    destruct (regex_match c x); [|reflexivity].
    rewrite H by smaller. apply bind_ext. intros [|]; [reflexivity|].
    destruct b; [|reflexivity]. apply H. smaller. }
  destruct r as [|c [|d rest]]; cbn [core_step].
  - reflexivity.
  - apply Hplain. smaller.
  - destruct (Ascii.eqb c "\"%char).
    + unfold escape_step. destruct s as [|x s']; [reflexivity|].
      destruct (Ascii.eqb d x); [|reflexivity]. apply H. smaller.
    + destruct (in_chars d (lit "?*+")).
      * unfold quantified_step, skip.
        rewrite !(Hconsume _ c d rest eq_refl).
        rewrite (H rest s) by smaller. reflexivity.
      * apply Hplain. smaller.
Qed.

Lemma core_step_returns (self : str -> str -> run bool) (r s : str) :
  (forall r' s', depth r' s' < depth r s -> returns (self r' s')) ->
  returns (core_step self base r s).
Proof.
  intros H.
  assert (Hplain : forall c rest, depth rest s <= depth r s ->
            returns (plain_step self c rest s)).
  { intros c rest Hle. unfold plain_step.
    destruct s as [|x s']; [apply returns_ret|].
    destruct (regex_match c x); [|apply returns_ret]. apply H.
    revert Hle. smaller. }
  assert (Hconsume : forall b c d rest, r = c :: d :: rest ->
            returns (consume self b c d rest s)).
  { intros b c d rest ->. unfold consume.
    destruct s as [|x s']; [apply returns_ret|].
    destruct (regex_match c x); [|apply returns_ret].
    apply returns_bind; [apply H; smaller|].
    intros [|]; [apply returns_ret|].
    destruct b; [|apply returns_ret]. apply H. smaller. }
  destruct r as [|c [|d rest]]; cbn [core_step].
  - apply returns_ret.
  - apply Hplain. smaller.
  - destruct (Ascii.eqb c "\"%char).
    + unfold escape_step. destruct s as [|x s']; [apply returns_ret|].
      destruct (Ascii.eqb d x); [|apply returns_ret]. apply H. smaller.
    + destruct (in_chars d (lit "?*+")).
      * unfold quantified_step, skip.
        destruct (Ascii.eqb d "?"%char); [|destruct (Ascii.eqb d "*"%char)];
          try (apply returns_bind; [apply H; smaller|];
               intros [|]; [apply returns_ret|]);
          apply (Hconsume _ c d rest eq_refl).
      * apply Hplain. smaller.
Qed.

End CoreStep.

(** ** The recursion does not depend on the budget, once it is enough *)

Section Recursion.

Variable base : str -> bool.
Variable ev : str -> str -> event.
Variable f : nat -> str -> str -> run bool.

Hypothesis f_S : forall n r s,
    f (S n) r s = enter (ev r s) (core_step (f n) base r s).

Lemma fuel_enough (n : nat) :
  forall r s, depth r s < n -> f n r s = settled f r s.
Proof.
  induction n as [n IH] using lt_wf_ind. intros r s Hn.
  destruct n as [|n]; [lia|]. unfold settled. rewrite !f_S. f_equal.
  apply core_step_ext. intros r' s' Hlt.
  rewrite (IH n) by lia. rewrite (IH (depth r s)) by lia. reflexivity.
Qed.

Lemma fuel_unfold (r s : str) :
  settled f r s = enter (ev r s) (core_step (settled f) base r s).
Proof.
  unfold settled at 1. rewrite f_S. f_equal.
  apply core_step_ext. intros r' s' Hlt. apply fuel_enough. exact Hlt.
Qed.

Lemma fuel_returns (r s : str) : returns (settled f r s).
Proof.
  remember (depth r s) as k eqn:Hk. revert r s Hk.
  induction k as [k IH] using lt_wf_ind. intros r s ->.
  rewrite fuel_unfold. apply returns_enter. apply core_step_returns.
  intros r' s' Hlt. apply (IH _ Hlt). reflexivity.
Qed.

End Recursion.

Lemma regex_match_full_fuel_S n r s :
  regex_match_full_fuel (S n) r s =
  enter (EFull r s)
    (core_step (regex_match_full_fuel n) (fun s => negb (truthy s)) r s).
Proof. simpl. rewrite regex_match_full_body_step. reflexivity. Qed.

Lemma regex_match_prefix_fuel_S n r s :
  regex_match_prefix_fuel (S n) r s =
  enter (EPrefix r s)
    (core_step (regex_match_prefix_fuel n) (fun _ => true) r s).
Proof. simpl. rewrite regex_match_prefix_body_step. reflexivity. Qed.

Lemma regex_match_full_enough n r s :
  depth r s < n -> regex_match_full_fuel n r s = regex_match_full r s.
Proof. apply (fuel_enough _ _ _ regex_match_full_fuel_S). Qed.

Lemma regex_match_prefix_enough n r s :
  depth r s < n -> regex_match_prefix_fuel n r s = regex_match_prefix r s.
Proof. apply (fuel_enough _ _ _ regex_match_prefix_fuel_S). Qed.

Lemma regex_match_full_unfold r s :
  regex_match_full r s =
  enter (EFull r s)
    (core_step regex_match_full (fun s => negb (truthy s)) r s).
Proof. apply (fuel_unfold _ _ _ regex_match_full_fuel_S). Qed.

Lemma regex_match_prefix_unfold r s :
  regex_match_prefix r s =
  enter (EPrefix r s) (core_step regex_match_prefix (fun _ => true) r s).
Proof. apply (fuel_unfold _ _ _ regex_match_prefix_fuel_S). Qed.

Lemma regex_match_full_returns r s : returns (regex_match_full r s).
Proof. apply (fuel_returns _ _ _ regex_match_full_fuel_S). Qed.

Lemma regex_match_prefix_returns r s : returns (regex_match_prefix r s).
Proof. apply (fuel_returns _ _ _ regex_match_prefix_fuel_S). Qed.

Lemma result_value (m : run bool) : returns m -> result m = Ret (value m).
Proof. intros (t & b & ->). reflexivity. Qed.

Lemma result_bind_value {B : Type} (m : run bool) (f : bool -> run B) :
  returns m -> result (bind m f) = result (f (value m)).
Proof. intros (t & b & ->). reflexivity. Qed.

Lemma result_enter {A : Type} (e : event) (m : run A) :
  result (enter e m) = result m.
Proof. reflexivity. Qed.

Lemma result_core_step (self : str -> str -> run bool) (base : str -> bool)
    (r s : str) :
  (forall r' s', returns (self r' s')) ->
  result (core_step self base r s) =
  Ret (core_value (fun r' s' => value (self r' s')) base r s).
Proof.
  intros H.
  assert (Hself : forall r' s', result (self r' s') = Ret (value (self r' s')))
    by (intros; apply result_value, H).
  destruct r as [|c [|d rest]]; cbn [core_step core_value].
  - reflexivity.
  - unfold plain_step. destruct s as [|x s']; [reflexivity|].
    destruct (regex_match c x); [apply Hself|reflexivity].
  - destruct (Ascii.eqb c "\"%char).
    + unfold escape_step. destruct s as [|x s']; [reflexivity|].
      destruct (Ascii.eqb d x); [apply Hself|reflexivity].
    + destruct (in_chars d (lit "?*+")) eqn:Hq.
      * assert (Hconsume : forall b,
                  result (consume self b c d rest s) =
                  Ret match s with
                      | [] => false
                      | x :: s' =>
                          regex_match c x
                          && (value (self rest s')
                              || (b && value (self (c :: d :: rest) s')))
                      end).
        { intros b. unfold consume. destruct s as [|x s']; [reflexivity|].
          destruct (regex_match c x); [|reflexivity].
          rewrite result_bind_value by apply H.
          destruct (value (self rest s')); [reflexivity|].
          destruct b; [apply Hself|reflexivity]. }
        unfold quantified_step, skip.
        destruct (in_quantifiers d Hq) as [->|[->| ->]];
          cbn [Ascii.eqb Bool.eqb in_chars lit list_ascii_of_string existsb
                 orb andb];
          rewrite ?result_bind_value by apply H;
          try destruct (value (self rest s)); cbn [orb andb];
          try reflexivity; apply Hconsume.
      * unfold plain_step. destruct s as [|x s']; [reflexivity|].
        destruct (regex_match c x); [apply Hself|reflexivity].
Qed.

Lemma regex_match_full_result r s :
  result (regex_match_full r s) = Ret (full_value r s).
Proof. apply result_value, regex_match_full_returns. Qed.

Lemma regex_match_prefix_result r s :
  result (regex_match_prefix r s) = Ret (prefix_value r s).
Proof. apply result_value, regex_match_prefix_returns. Qed.

Lemma full_value_unfold r s :
  full_value r s = core_value full_value (fun s => negb (truthy s)) r s.
Proof.
  unfold full_value at 1, value. rewrite regex_match_full_unfold, result_enter.
  rewrite result_core_step by apply regex_match_full_returns. reflexivity.
Qed.

Lemma prefix_value_unfold r s :
  prefix_value r s = core_value prefix_value (fun _ => true) r s.
Proof.
  unfold prefix_value at 1, value.
  rewrite regex_match_prefix_unfold, result_enter.
  rewrite result_core_step by apply regex_match_prefix_returns. reflexivity.
Qed.

(** A full match is a prefix match. *)
Lemma full_value_prefix_value r s :
  full_value r s = true -> prefix_value r s = true.
Proof.
  remember (depth r s) as k eqn:Hk. revert r s Hk.
  induction k as [k IH] using lt_wf_ind. intros r s -> Hfull.
  assert (IH' : forall r' s', depth r' s' < depth r s ->
                  full_value r' s' = true -> prefix_value r' s' = true)
    by (intros r' s' Hlt; apply (IH _ Hlt); reflexivity).
  clear IH. rewrite full_value_unfold in Hfull. rewrite prefix_value_unfold.
  destruct r as [|c [|d rest]]; cbn [core_value] in *.
  - reflexivity.
  - destruct s as [|x s']; [discriminate|].
    apply andb_true_iff in Hfull. destruct Hfull as [-> Hfull].
    apply IH' in Hfull; [rewrite Hfull; reflexivity|smaller].
  - destruct (Ascii.eqb c "\"%char).
    + destruct s as [|x s']; [discriminate|].
      apply andb_true_iff in Hfull. destruct Hfull as [-> Hfull].
      apply IH' in Hfull; [rewrite Hfull; reflexivity|smaller].
    + destruct (in_chars d (lit "?*+")).
      * apply orb_true_iff in Hfull. apply orb_true_iff.
        destruct Hfull as [Hfull|Hfull].
        { left. apply andb_true_iff in Hfull. destruct Hfull as [-> Hfull].
          apply IH' in Hfull; [rewrite Hfull; reflexivity|smaller]. }
        right. destruct s as [|x s']; [discriminate|].
        apply andb_true_iff in Hfull. destruct Hfull as [-> Hfull].
        apply orb_true_iff in Hfull. cbn [andb]. apply orb_true_iff.
        destruct Hfull as [Hfull|Hfull].
        { left. apply IH' in Hfull; [exact Hfull|smaller]. }
        right. apply andb_true_iff in Hfull. destruct Hfull as [-> Hfull].
        apply IH' in Hfull; [exact Hfull|smaller].
      * destruct s as [|x s']; [discriminate|].
        apply andb_true_iff in Hfull. destruct Hfull as [-> Hfull].
        apply IH' in Hfull; [rewrite Hfull; reflexivity|smaller].
Qed.

(** ** The quantified-atom step *)

Lemma body_quantified (body : (str -> str -> run bool) -> str -> str -> run bool)
    (base : str -> bool) :
  (forall self r s, body self r s = core_step self base r s) ->
  forall self c q rest s,
    c <> "\"%char -> in_chars q (lit "?*+") = true ->
    body self (c :: q :: rest) s = quantified_step self c q rest s.
Proof.
  intros Hbody self c q rest s Hc Hq. rewrite Hbody. cbn [core_step].
  apply Ascii.eqb_neq in Hc. rewrite Hc, Hq. reflexivity.
Qed.

Lemma quantified_first_call (ev : str -> str -> event)
    (answer : str -> str -> bool) (c q : ascii) (rest s : str) :
  in_chars q (lit "?*+") = true ->
  hd_error (trace (quantified_step (probe ev answer) c q rest s)) =
  if Ascii.eqb q "+"%char then
    match s with
    | [] => None
    | x :: s' => if regex_match c x then Some (ev rest s') else None
    end
  else Some (ev rest s).
Proof.
  intros Hq. unfold quantified_step, skip, consume, probe.
  destruct (in_quantifiers q Hq) as [->|[->| ->]]; cbn [Ascii.eqb Bool.eqb];
    try reflexivity.
  destruct s as [|x s']; [reflexivity|].
  destruct (regex_match c x); reflexivity.
Qed.

(** C1.  On a pattern [c q rest] whose atom [c] is not an escape and whose
    second character [q] is one of [?], [*], [+], both core matchers make
    the quantified-atom step of the specification: for [?] and [*] skip
    (the rest of the pattern on the same subject) first and, when it fails,
    consume (one subject character matching the atom, then the rest of the
    pattern or, for [*] and [+], the same pattern again); for [+] skip is
    not tried, so the first recursive call is the one after a consumed
    character.  [search("a*ab", "aaab")] is true. *)
Theorem quantified_step_backtracking_order (c q : ascii) (rest s : str) :
  c <> "\"%char ->
  in_chars q (lit "?*+") = true ->
  (forall self,
      regex_match_full_body self (c :: q :: rest) s =
      quantified_step self c q rest s
      /\ regex_match_prefix_body self (c :: q :: rest) s =
         quantified_step self c q rest s)
  /\ regex_match_full (c :: q :: rest) s =
     enter (EFull (c :: q :: rest) s)
       (quantified_step regex_match_full c q rest s)
  /\ regex_match_prefix (c :: q :: rest) s =
     enter (EPrefix (c :: q :: rest) s)
       (quantified_step regex_match_prefix c q rest s)
  /\ (forall ev answer,
        hd_error (trace (quantified_step (probe ev answer) c q rest s)) =
        if Ascii.eqb q "+"%char then
          match s with
          | [] => None
          | x :: s' => if regex_match c x then Some (ev rest s') else None
          end
        else Some (ev rest s))
  /\ result (regex_search (lit "a*ab") (lit "aaab")) = Ret true.
Proof.
  intros Hc Hq.
  split; [intros self; split|split; [|split; [|split]]].
  - apply (body_quantified _ _ regex_match_full_body_step); assumption.
  - apply (body_quantified _ _ regex_match_prefix_body_step); assumption.
  - rewrite regex_match_full_unfold. cbn [core_step].
    apply Ascii.eqb_neq in Hc. rewrite Hc, Hq. reflexivity.
  - rewrite regex_match_prefix_unfold. cbn [core_step].
    apply Ascii.eqb_neq in Hc. rewrite Hc, Hq. reflexivity.
  - intros ev answer. apply quantified_first_call. exact Hq.
  - vm_compute. reflexivity.
Qed.

Lemma quantified_step_backtracking_order_witness :
  "a"%char <> "\"%char
  /\ in_chars "*"%char (lit "?*+") = true
  /\ regex_match_full (lit "a*ab") (lit "aaab") =
     enter (EFull (lit "a*ab") (lit "aaab"))
       (quantified_step regex_match_full "a"%char "*"%char (lit "ab")
          (lit "aaab")).
Proof.
  split; [discriminate|]. split; [reflexivity|].
  refine (proj1 (proj2 (quantified_step_backtracking_order "a"%char "*"%char
                          (lit "ab") (lit "aaab") _ _)));
    [discriminate|reflexivity].
Defined.

(** ** The search driver *)

Lemma slice_length (s : str) (lo hi : option Z) :
  len (slice s lo hi) <= len s.
Proof.
  unfold slice, len. rewrite length_firstn, length_skipn. lia.
Qed.

Lemma scan_ext (l : list nat) (f g : nat -> run bool) :
  (forall i, In i l -> f i = g i) -> scan l f = scan l g.
Proof.
  induction l as [|i l IH]; intros H; [reflexivity|]. cbn [scan].
  rewrite (H i) by (left; reflexivity). apply bind_ext. intros [|].
  - reflexivity.
  - apply IH. intros j Hj. apply H. right. exact Hj.
Qed.

Lemma scan_returns (l : list nat) (f : nat -> run bool) :
  (forall i, returns (f i)) -> returns (scan l f).
Proof.
  intros H. induction l as [|i l IH]; cbn [scan]; [apply returns_ret|].
  apply returns_bind; [apply H|]. intros [|]; [apply returns_ret|exact IH].
Qed.

Lemma regex_search_enough (n : nat) (p s : str) :
  depth p s < n -> regex_search_fuel n p s = regex_search p s.
Proof.
  intros Hn. unfold regex_search_fuel, regex_search, regex_search_with.
  assert (Hsl : forall lo hi, len (slice p lo hi) <= len p)
    by (intros; apply slice_length).
  assert (Hss : forall lo hi, len (slice s lo hi) <= len s)
    by (intros; apply slice_length).
  destruct (negb (truthy p)); [reflexivity|].
  destruct (startswith p (lit "^") && endswith p (lit "$")).
  { apply regex_match_full_enough. unfold depth in *.
    specialize (Hsl (Some 1%Z) (Some (-1)%Z)). unfold slice_mid. lia. }
  destruct (startswith p (lit "^")).
  { apply regex_match_prefix_enough. unfold depth in *.
    specialize (Hsl (Some 1%Z) None). unfold slice_from. lia. }
  destruct (endswith p (lit "$")); apply scan_ext; intros i _.
  - apply regex_match_full_enough. unfold depth in *.
    specialize (Hsl None (Some (-1)%Z)).
    specialize (Hss (Some (Z.of_nat i)) None). unfold slice_to, slice_from.
    lia.
  - apply regex_match_prefix_enough. unfold depth in *.
    specialize (Hss (Some (Z.of_nat i)) None). unfold slice_from. lia.
Qed.

Lemma regex_search_returns (p s : str) : returns (regex_search p s).
Proof.
  unfold regex_search, regex_search_with.
  destruct (negb (truthy p)); [apply returns_ret|].
  destruct (startswith p (lit "^") && endswith p (lit "$"));
    [apply regex_match_full_returns|].
  destruct (startswith p (lit "^")); [apply regex_match_prefix_returns|].
  destruct (endswith p (lit "$")); apply scan_returns; intros i.
  - apply regex_match_full_returns.
  - apply regex_match_prefix_returns.
Qed.

Lemma startswith_caret (p : str) :
  startswith p (lit "^") = true -> exists tl, p = "^"%char :: tl.
Proof.
  destruct p as [|c tl]; [discriminate|]. unfold startswith.
  change (lit "^") with ["^"%char]. cbn [is_prefix].
  rewrite andb_true_r, Ascii.eqb_sym. intros H. apply Ascii.eqb_eq in H. subst c.
  exists tl. reflexivity.
Qed.

Lemma endswith_dollar (p : str) :
  endswith p (lit "$") = true -> exists core, p = core ++ ["$"%char].
Proof.
  destruct p as [|x p _] using rev_ind; [discriminate|].
  unfold endswith. rewrite rev_app_distr.
  change (lit "$") with ["$"%char]. cbn [rev app is_prefix].
  rewrite andb_true_r, Ascii.eqb_sym. intros H. apply Ascii.eqb_eq in H. subst x. exists p. reflexivity.
Qed.

Lemma anchored_shape (p : str) :
  startswith p (lit "^") = true -> endswith p (lit "$") = true ->
  exists inner, p = "^"%char :: inner ++ ["$"%char].
Proof.
  intros Hs He. destruct (startswith_caret p Hs) as [tl ->].
  destruct (endswith_dollar _ He) as [core Hcore].
  destruct core as [|c core]; [discriminate|].
  injection Hcore as _ ->. exists core. reflexivity.
Qed.

(** C4.  On a non-empty pattern that starts with [^] and ends with [$],
    [regex_search] is the full matcher on the pattern without its first and
    last characters, against the whole subject.  [search("^abc$", "abc")] is
    true, [search("^abc$", "abcd")] and [search("^abc$", "xabc")] are
    false. *)
Theorem search_both_anchors (p s : str) :
  p <> [] ->
  startswith p (lit "^") = true ->
  endswith p (lit "$") = true ->
  regex_search p s = regex_match_full (slice_mid p 1 (-1)) s
  /\ (exists inner,
        p = "^"%char :: inner ++ ["$"%char] /\ slice_mid p 1 (-1) = inner)
  /\ result (regex_search (lit "^abc$") (lit "abc")) = Ret true
  /\ result (regex_search (lit "^abc$") (lit "abcd")) = Ret false
  /\ result (regex_search (lit "^abc$") (lit "xabc")) = Ret false.
Proof.
  intros Hne Hs He. split; [|split; [|split; [|split]]].
  - unfold regex_search, regex_search_with. rewrite Hs, He.
    destruct p; [contradiction|reflexivity].
  - destruct (anchored_shape p Hs He) as [inner ->]. exists inner.
    split; [reflexivity|]. rewrite slice_mid_inner. apply removelast_last.
  - vm_compute. reflexivity.
  - vm_compute. reflexivity.
  - vm_compute. reflexivity.
Qed.

Lemma search_both_anchors_witness :
  lit "^abc$" <> []
  /\ startswith (lit "^abc$") (lit "^") = true
  /\ endswith (lit "^abc$") (lit "$") = true
  /\ regex_search (lit "^abc$") (lit "abcd") =
     regex_match_full (slice_mid (lit "^abc$") 1 (-1)) (lit "abcd").
Proof.
  split; [discriminate|]. split; [reflexivity|]. split; [reflexivity|].
  refine (proj1 (search_both_anchors (lit "^abc$") (lit "abcd") _ _ _));
    [discriminate|reflexivity|reflexivity].
Defined.

(** C6.  The empty pattern matches every subject, the empty one included:
    [regex_search] returns true at once, before looking at anchors and
    without calling a core matcher, with any recursion budget. *)
Theorem search_empty_pattern (s : str) :
  regex_search (lit "") s = Run [] (Ret true)
  /\ (forall fuel, regex_search_fuel fuel (lit "") s = Run [] (Ret true))
  /\ result (regex_search (lit "") (lit "")) = Ret true.
Proof. repeat split. Qed.

(** C9.  [regex_search] is a function of its two arguments only: two runs on
    the same pattern and subject, with whatever recursion budgets that cover
    the depth of the call, are the same run, with the same calls and the same
    boolean. *)
Theorem search_deterministic (n m : nat) (p s : str) :
  depth p s < n -> depth p s < m ->
  regex_search_fuel n p s = regex_search_fuel m p s
  /\ regex_search_fuel n p s = regex_search p s
  /\ exists b, result (regex_search p s) = Ret b.
Proof.
  intros Hn Hm. rewrite !regex_search_enough by assumption.
  split; [reflexivity|]. split; [reflexivity|].
  apply returns_result, regex_search_returns.
Qed.

Lemma search_deterministic_witness :
  depth (lit "a*ab") (lit "aaab") < 9
  /\ depth (lit "a*ab") (lit "aaab") < 20
  /\ regex_search_fuel 9 (lit "a*ab") (lit "aaab") =
     regex_search_fuel 20 (lit "a*ab") (lit "aaab").
Proof.
  split; [vm_compute; lia|]. split; [vm_compute; lia|].
  refine (proj1 (search_deterministic 9 20 (lit "a*ab") (lit "aaab") _ _));
    vm_compute; lia.
Defined.

(** C10.  A full match is a prefix match; the two bodies are the same on
    every non-empty pattern, and differ on the empty pattern only. *)
Theorem full_match_implies_prefix_match (p s : str) :
  result (regex_match_full p s) = Ret true ->
  result (regex_match_prefix p s) = Ret true
  /\ (forall self r s', r <> [] ->
        regex_match_full_body self r s' = regex_match_prefix_body self r s').
Proof.
  intros H. split.
  - rewrite regex_match_full_result in H. injection H as H.
    rewrite regex_match_prefix_result. f_equal.
    apply full_value_prefix_value. exact H.
  - intros self r s' Hr. destruct r; [contradiction|reflexivity].
Qed.

Lemma full_match_implies_prefix_match_witness :
  result (regex_match_full (lit "a*b") (lit "aab")) = Ret true
  /\ result (regex_match_prefix (lit "a*b") (lit "aab")) = Ret true.
Proof.
  split; [vm_compute; reflexivity|].
  refine (proj1 (full_match_implies_prefix_match (lit "a*b") (lit "aab") _)).
  vm_compute. reflexivity.
Defined.

(** ** Scanning the start offsets *)

Lemma scan_from (attempt : nat -> run bool) (n a : nat) :
  (forall i, returns (attempt i)) ->
  exists k,
    k <= n
    /\ (forall i, i < k -> result (attempt (a + i)) = Ret false)
    /\ (k < n -> result (attempt (a + k)) = Ret true)
    /\ scan (seq a (S n)) attempt =
       Run (concat (map (fun i => trace (attempt i)) (seq a (S k))))
         (result (attempt (a + k))).
Proof.
  intros Hret. revert a. induction n as [|n IH]; intros a.
  - exists 0. split; [lia|]. split; [intros i Hi; lia|]. split; [lia|].
    cbn [seq scan map concat]. rewrite bind_ret_bool, Nat.add_0_r, app_nil_r.
    symmetry. apply run_eta.
  - destruct (Hret a) as (t & b & E). destruct b.
    + exists 0. split; [lia|]. split; [intros i Hi; lia|].
      rewrite Nat.add_0_r. split; [intros _; rewrite E; reflexivity|].
      change (seq a (S (S n))) with (a :: seq (S a) (S n)).
      cbn [scan seq map concat]. rewrite E. cbn. reflexivity.
    + destruct (IH (S a)) as (k & Hk & Hbefore & Hat & Hscan).
      exists (S k). split; [lia|]. split; [|split].
      * intros i Hi. destruct i as [|i].
        { rewrite Nat.add_0_r, E. reflexivity. }
        rewrite Nat.add_succ_r. apply (Hbefore i). lia.
      * intros Hlt. rewrite Nat.add_succ_r. apply Hat. lia.
      * change (seq a (S (S n))) with (a :: seq (S a) (S n)).
        change (seq a (S (S k))) with (a :: seq (S a) (S k)).
        cbn [scan map concat]. rewrite E, bind_Ret, Hscan.
        rewrite Nat.add_succ_r. reflexivity.
Qed.

Lemma scan_range (attempt : nat -> run bool) (n : nat) :
  (forall i, returns (attempt i)) ->
  (result (scan (range (n + 1)) attempt) = Ret true <->
   exists i, i <= n /\ result (attempt i) = Ret true)
  /\ (result (scan (range (n + 1)) attempt) = Ret false <->
      forall i, i <= n -> result (attempt i) = Ret false)
  /\ exists k,
       k <= n
       /\ (forall i, i < k -> result (attempt i) = Ret false)
       /\ (k < n -> result (attempt k) = Ret true)
       /\ scan (range (n + 1)) attempt =
          Run (concat (map (fun i => trace (attempt i)) (range (S k))))
            (result (attempt k)).
Proof.
  intros Hret. unfold range. rewrite Nat.add_1_r.
  destruct (scan_from attempt n 0 Hret) as (k & Hk & Hbefore & Hat & Hscan).
  cbn [Nat.add] in *. rewrite Hscan. cbn [result].
  split; [|split].
  - split.
    + intros H. exists k. split; assumption.
    + intros (i & Hi & Htrue).
      destruct (Nat.lt_ge_cases k n) as [Hlt|Hge]; [apply Hat, Hlt|].
      assert (k = n) by lia. subst k.
      destruct (Nat.eq_dec i n) as [->|Hne]; [exact Htrue|].
      rewrite Hbefore in Htrue by lia. discriminate.
  - split.
    + intros H i Hi.
      destruct (Nat.lt_ge_cases k n) as [Hlt|Hge].
      { rewrite (Hat Hlt) in H. discriminate. }
      assert (k = n) by lia. subst k.
      destruct (Nat.eq_dec i n) as [->|Hne]; [exact H|].
      apply Hbefore. lia.
    + intros H. apply H. exact Hk.
  - exists k. repeat split; assumption.
Qed.

(** C5.  On a pattern that does not start with [^], [regex_search] tries the
    start offsets [0], [1], ... up to [len(subject)] in this order, on the
    suffix of the subject from that offset: with the full matcher and the
    pattern without its last character when the pattern ends with [$], with
    the prefix matcher and the whole pattern otherwise.  It returns true
    exactly when some offset yields a match and false exactly when none does,
    and it stops at the first offset that matches: the calls it makes are
    those of the attempts up to that offset, and no other.
    [search("c$", "abc")] is true and [search("c$", "abcd")] is false. *)
Theorem search_scans_offsets (p s : str) :
  startswith p (lit "^") = false ->
  let attempt := fun i : nat =>
    if endswith p (lit "$") then
      regex_match_full (slice_to p (-1)) (slice_from s (Z.of_nat i))
    else regex_match_prefix p (slice_from s (Z.of_nat i)) in
  (forall i, slice_from s (Z.of_nat i) = skipn i s)
  /\ (result (regex_search p s) = Ret true <->
      exists i, i <= len s /\ result (attempt i) = Ret true)
  /\ (result (regex_search p s) = Ret false <->
      forall i, i <= len s -> result (attempt i) = Ret false)
  /\ (p <> [] ->
      exists k,
        k <= len s
        /\ (forall i, i < k -> result (attempt i) = Ret false)
        /\ (k < len s -> result (attempt k) = Ret true)
        /\ regex_search p s =
           Run (concat (map (fun i => trace (attempt i)) (range (S k))))
             (result (attempt k)))
  /\ result (regex_search (lit "c$") (lit "abc")) = Ret true
  /\ result (regex_search (lit "c$") (lit "abcd")) = Ret false.
Proof.
  intros Hs attempt.
  assert (Hret : forall i, returns (attempt i)).
  { intros i. unfold attempt. destruct (endswith p (lit "$"));
      [apply regex_match_full_returns|apply regex_match_prefix_returns]. }
  split; [intros i; apply slice_from_nat|].
  assert (Hvm : result (regex_search (lit "c$") (lit "abc")) = Ret true
                /\ result (regex_search (lit "c$") (lit "abcd")) = Ret false)
    by (split; vm_compute; reflexivity).
  destruct p as [|c p'].
  - assert (H0 : result (attempt 0) = Ret true) by reflexivity.
    split; [|split; [|split; [contradiction|exact Hvm]]].
    + split; [intros _; exists 0; split; [lia|exact H0]|reflexivity].
    + split; [discriminate|]. intros H. rewrite H in H0 by lia. discriminate.
  - assert (Hscan : regex_search (c :: p') s =
                    scan (range (len s + 1)) attempt).
    { unfold regex_search, regex_search_with, attempt. rewrite Hs.
      cbn [truthy negb andb]. destruct (endswith (c :: p') (lit "$"));
        reflexivity. }
    rewrite Hscan.
    destruct (scan_range attempt (len s) Hret) as (Htrue & Hfalse & Hk).
    split; [exact Htrue|]. split; [exact Hfalse|].
    split; [intros _; exact Hk|exact Hvm].
Qed.

Lemma search_scans_offsets_witness :
  startswith (lit "c$") (lit "^") = false
  /\ (result (regex_search (lit "c$") (lit "abc")) = Ret true <->
      exists i,
        i <= len (lit "abc")
        /\ result
             (if endswith (lit "c$") (lit "$") then
                regex_match_full (slice_to (lit "c$") (-1))
                  (slice_from (lit "abc") (Z.of_nat i))
              else regex_match_prefix (lit "c$")
                     (slice_from (lit "abc") (Z.of_nat i))) = Ret true).
Proof.
  split; [reflexivity|].
  refine (proj1 (proj2 (search_scans_offsets (lit "c$") (lit "abc") _))).
  reflexivity.
Defined.

(** ** Quantifiers against the empty subject *)

Lemma search_atom_quantifier_empty (c q : ascii) :
  Ascii.eqb "^"%char c = false -> Ascii.eqb "$"%char q = false ->
  result (regex_search [c; q] []) = Ret (prefix_value [c; q] []).
Proof.
  intros Hc Hq. unfold regex_search, regex_search_with, startswith, endswith.
  change (lit "^") with ["^"%char]. change (lit "$") with ["$"%char].
  cbn [rev app is_prefix truthy negb]. rewrite Hc, Hq.
  cbn [andb len length Nat.add range seq scan]. rewrite bind_ret_bool.
  change (slice_from [] (Z.of_nat 0)) with (@nil ascii).
  apply regex_match_prefix_result.
Qed.

(** C7.  Against the empty subject a single atom followed by [*] or by [?]
    matches and a single atom followed by [+] does not, for every atom that
    is not the escape character or the start anchor:
    [search("a*", "")] and [search("a?", "")] are true, [search("a+", "")]
    is false. *)
Theorem quantifiers_empty_subject (c : ascii) :
  c <> "\"%char -> c <> "^"%char ->
  (result (regex_search [c; "*"%char] []) = Ret true
   /\ result (regex_search [c; "?"%char] []) = Ret true
   /\ result (regex_search [c; "+"%char] []) = Ret false)
  /\ result (regex_search (lit "a*") (lit "")) = Ret true
  /\ result (regex_search (lit "a+") (lit "")) = Ret false
  /\ result (regex_search (lit "a?") (lit "")) = Ret true.
Proof.
  intros H1 H2. apply Ascii.eqb_neq in H1. apply Ascii.eqb_neq in H2.
  rewrite Ascii.eqb_sym in H2. split.
  - rewrite !search_atom_quantifier_empty by (exact H2 || reflexivity).
    rewrite !(prefix_value_unfold [c; _]). cbn [core_value]. rewrite H1.
    split; [|split]; reflexivity.
  - split; [|split]; vm_compute; reflexivity.
Qed.

Lemma quantifiers_empty_subject_witness :
  "."%char <> "\"%char
  /\ "."%char <> "^"%char
  /\ result (regex_search (lit ".*") (lit "")) = Ret true
  /\ result (regex_search (lit ".?") (lit "")) = Ret true
  /\ result (regex_search (lit ".+") (lit "")) = Ret false.
Proof.
  split; [discriminate|]. split; [discriminate|].
  refine (proj1 (quantifiers_empty_subject "."%char _ _)); discriminate.
Defined.

(** ** Termination and bounds *)

Lemma core_step_calls_decrease (base : str -> bool) (ev : str -> str -> event)
    (answer : str -> str -> bool) (r s : str) (e : event) :
  In e (trace (core_step (probe ev answer) base r s)) ->
  exists r' s', e = ev r' s' /\ lex_lt (r', s') (r, s).
Proof.
  assert (Hlt : forall r' s', depth r' s' < depth r s -> len s' <= len s ->
                  lex_lt (r', s') (r, s)).
  { intros r' s'. unfold lex_lt, depth. cbn [fst snd]. lia. }
  destruct r as [|c [|d rest]]; cbn [core_step];
    unfold plain_step, escape_step, quantified_step, skip, consume, probe, ret,
      bind;
    repeat match goal with
           | |- context [match ?x with [] => _ | _ :: _ => _ end] =>
               is_var x; destruct x
           | |- context [if ?b then _ else _] => destruct b
           | _ => progress cbn [trace result app In]
           end;
    intros H;
    repeat match goal with
           | H : _ \/ _ |- _ => destruct H as [H|H]
           | H : False |- _ => contradiction
           end;
    subst e; eexists _, _; (split; [reflexivity|]); apply Hlt; smaller.
Qed.

Lemma body_under_probe (base : str -> bool) (ev : str -> str -> event)
    (answer : str -> str -> bool) (r s : str) :
  (forall r' s', event_args (ev r' s') = (r', s')) ->
  returns (core_step (probe ev answer) base r s)
  /\ forall e, In e (trace (core_step (probe ev answer) base r s)) ->
               lex_lt (event_args e) (r, s).
Proof.
  intros Hev. split.
  - apply core_step_returns. intros r' s' _.
    exists [ev r' s'], (answer r' s'). reflexivity.
  - intros e He.
    destruct (core_step_calls_decrease _ _ _ _ _ _ He) as (r' & s' & -> & Hlt).
    rewrite Hev. exact Hlt.
Qed.

(** C8.  With a recursion budget above [len(pattern) + len(subject)], both
    core matchers and [regex_search] return a boolean: they do not run out
    of budget and do not raise [IndexError].  One step of a core matcher
    returns whatever its recursive calls answer, so its indexing of the
    pattern and of the subject stays in bounds, and each of its recursive
    calls is on a pair that is smaller in the lexicographic order on
    (length of subject, length of pattern). *)
Theorem search_terminates_without_fault (fuel : nat) (p s : str) :
  depth p s < fuel ->
  returns (regex_match_full_fuel fuel p s)
  /\ returns (regex_match_prefix_fuel fuel p s)
  /\ returns (regex_search_fuel fuel p s)
  /\ (forall answer,
        returns (regex_match_full_body (probe EFull answer) p s)
        /\ forall e,
             In e (trace (regex_match_full_body (probe EFull answer) p s)) ->
             lex_lt (event_args e) (p, s))
  /\ (forall answer,
        returns (regex_match_prefix_body (probe EPrefix answer) p s)
        /\ forall e,
             In e (trace (regex_match_prefix_body (probe EPrefix answer) p s)) ->
             lex_lt (event_args e) (p, s)).
Proof.
  intros Hfuel. split; [|split; [|split; [|split]]].
  - rewrite regex_match_full_enough by exact Hfuel.
    apply regex_match_full_returns.
  - rewrite regex_match_prefix_enough by exact Hfuel.
    apply regex_match_prefix_returns.
  - rewrite regex_search_enough by exact Hfuel. apply regex_search_returns.
  - intros answer. rewrite regex_match_full_body_step.
    apply body_under_probe. reflexivity.
  - intros answer. rewrite regex_match_prefix_body_step.
    apply body_under_probe. reflexivity.
Qed.

Lemma search_terminates_without_fault_witness :
  depth (lit "a*ab") (lit "aaab") < 9
  /\ returns (regex_search_fuel 9 (lit "a*ab") (lit "aaab")).
Proof.
  split; [vm_compute; lia|].
  refine (proj1 (proj2 (proj2
            (search_terminates_without_fault 9 (lit "a*ab") (lit "aaab") _)))).
  vm_compute. lia.
Defined.

(** ** Escapes *)

Lemma trailing_escapes_all (p : str) :
  forallb (fun c => Ascii.eqb c "\"%char) p = true ->
  trailing_escapes p = length p.
Proof.
  destruct p as [|c tl]; [reflexivity|]. intros H.
  cbn [trailing_escapes]. rewrite H. reflexivity.
Qed.

(** The last atom is a lone [\] exactly when the pattern ends with an odd
    number of [\]. *)
Lemma ends_with_lone_escape_odd (p : str) :
  ends_with_lone_escape p = Nat.odd (trailing_escapes p).
Proof.
  remember (length p) as n eqn:Hn. revert p Hn.
  induction n as [n IH] using lt_wf_ind. intros p ->.
  destruct p as [|c [|d rest]].
  - reflexivity.
  - cbn. destruct (Ascii.eqb c "\"%char); reflexivity.
  - assert (IHrest : ends_with_lone_escape rest = Nat.odd (trailing_escapes rest))
      by (apply (IH (length rest)); [cbn [length]; lia|reflexivity]).
    assert (IHtail : ends_with_lone_escape (d :: rest) =
                     Nat.odd (trailing_escapes (d :: rest)))
      by (apply (IH (length (d :: rest))); [cbn [length]; lia|reflexivity]).
    change (ends_with_lone_escape (c :: d :: rest)) with
      (if Ascii.eqb c "\"%char then ends_with_lone_escape rest
       else if in_chars d (lit "?*+") then ends_with_lone_escape rest
       else ends_with_lone_escape (d :: rest)).
    change (trailing_escapes (c :: d :: rest)) with
      (if Ascii.eqb c "\"%char
          && forallb (fun c => Ascii.eqb c "\"%char) (d :: rest)
       then length (c :: d :: rest)
       else trailing_escapes (d :: rest)).
    assert (Htail : forallb (fun c => Ascii.eqb c "\"%char) (d :: rest) = false ->
                    trailing_escapes (d :: rest) = trailing_escapes rest).
    { intros H. cbn [trailing_escapes]. rewrite H. reflexivity. }
    destruct (Ascii.eqb c "\"%char); cbn [andb].
    + destruct (forallb _ (d :: rest)) eqn:Hall.
      * rewrite IHrest. cbn [forallb] in Hall.
        apply andb_true_iff in Hall. destruct Hall as [_ Hall].
        rewrite (trailing_escapes_all rest Hall). cbn [length].
        rewrite Nat.odd_succ, Nat.even_succ. reflexivity.
      * rewrite IHrest, Htail by reflexivity. reflexivity.
    + destruct (in_chars d (lit "?*+")) eqn:Hq; [|exact IHtail].
      rewrite IHrest, Htail; [reflexivity|].
      cbn [forallb]. destruct (in_quantifiers d Hq) as [->|[->| ->]];
        reflexivity.
Qed.

Section LoneEscape.

Variable v : str -> str -> bool.
Variable base : str -> bool.

Hypothesis v_unfold : forall r s, v r s = core_value v base r s.

Lemma lone_escape_needs_backslash (p s : str) :
  ends_with_lone_escape p = true -> ~ In "\"%char s -> v p s = false.
Proof.
  remember (depth p s) as k eqn:Hk. revert p s Hk.
  induction k as [k IH] using lt_wf_ind. intros p s -> Hlone Hs.
  assert (IH' : forall p' s', depth p' s' < depth p s ->
                  ends_with_lone_escape p' = true -> ~ In "\"%char s' ->
                  v p' s' = false)
    by (intros p' s' Hlt; apply (IH _ Hlt); reflexivity).
  clear IH. rewrite v_unfold.
  assert (Htl : forall x s', s = x :: s' -> ~ In "\"%char s')
    by (intros x s' -> Hin; apply Hs; right; exact Hin).
  assert (Hsame : forall s', depth p s' < depth p s -> ~ In "\"%char s' ->
                    v p s' = false)
    by (intros s' Hlt Hs'; apply IH'; assumption).
  destruct p as [|c [|d rest]]; cbn [core_value ends_with_lone_escape] in *.
  - discriminate.
  - destruct s as [|x s']; [reflexivity|].
    apply Ascii.eqb_eq in Hlone. subst c.
    assert (Hx : regex_match "\"%char x = false).
    { unfold regex_match. change (Ascii.eqb "\"%char "."%char) with false.
      cbv iota. apply Ascii.eqb_neq. intros <-. apply Hs. left.
      reflexivity. }
    rewrite Hx. reflexivity.
  - destruct (Ascii.eqb c "\"%char).
    + destruct s as [|x s']; [reflexivity|].
      rewrite (IH' rest s'); [apply andb_false_r|smaller|exact Hlone|eauto].
    + destruct (in_chars d (lit "?*+")).
      * rewrite (IH' rest s); [|smaller|exact Hlone|exact Hs].
        rewrite andb_false_r.
        destruct s as [|x s']; [reflexivity|].
        rewrite (IH' rest s'); [|smaller|exact Hlone|eauto].
        rewrite (Hsame s'); [|smaller|eauto].
        rewrite andb_false_r. cbn [orb]. apply andb_false_r.
      * destruct s as [|x s']; [reflexivity|].
        rewrite (IH' (d :: rest) s'); [apply andb_false_r|smaller|
                                        exact Hlone|eauto].
Qed.

End LoneEscape.

Lemma lone_escape_full (s : str) :
  result (regex_match_full (lit "\") s) =
  Ret match s with
      | [x] => Ascii.eqb "\"%char x
      | _ => false
      end.
Proof.
  rewrite regex_match_full_result, full_value_unfold. f_equal.
  change (lit "\") with ["\"%char]. cbn [core_value].
  destruct s as [|x s']; [reflexivity|].
  rewrite full_value_unfold. cbn [core_value]. unfold regex_match.
  change (Ascii.eqb "\"%char "."%char) with false. cbv iota.
  destruct s'; cbn [truthy negb]; [apply andb_true_r|apply andb_false_r].
Qed.

Lemma lone_escape_prefix (s : str) :
  result (regex_match_prefix (lit "\") s) =
  Ret match s with
      | x :: _ => Ascii.eqb "\"%char x
      | [] => false
      end.
Proof.
  rewrite regex_match_prefix_result, prefix_value_unfold. f_equal.
  change (lit "\") with ["\"%char]. cbn [core_value].
  destruct s as [|x s']; [reflexivity|].
  rewrite prefix_value_unfold. cbn [core_value]. unfold regex_match.
  change (Ascii.eqb "\"%char "."%char) with false. cbv iota.
  apply andb_true_r.
Qed.

Lemma ends_with_lone_escape_last (p : str) :
  ends_with_lone_escape p = true -> exists q, p = q ++ ["\"%char].
Proof.
  remember (length p) as n eqn:Hn. revert p Hn.
  induction n as [n IH] using lt_wf_ind. intros p -> Hlone.
  assert (IH' : forall p', length p' < length p ->
                  ends_with_lone_escape p' = true ->
                  exists q, p' = q ++ ["\"%char])
    by (intros p' Hlt; apply (IH _ Hlt); reflexivity).
  destruct p as [|c [|d rest]]; cbn [ends_with_lone_escape] in Hlone.
  - discriminate.
  - apply Ascii.eqb_eq in Hlone. subst c. exists []. reflexivity.
  - assert (Hrest : ends_with_lone_escape rest = true ->
                    exists q, c :: d :: rest = q ++ ["\"%char]).
    { intros H. destruct (IH' rest) as [q ->]; [cbn [length]; lia|exact H|].
      exists (c :: d :: q). reflexivity. }
    destruct (Ascii.eqb c "\"%char); [exact (Hrest Hlone)|].
    destruct (in_chars d (lit "?*+")); [exact (Hrest Hlone)|].
    destruct (IH' (d :: rest)) as [q Hq]; [cbn [length]; lia|exact Hlone|].
    exists (c :: q). rewrite Hq. reflexivity.
Qed.

Lemma lone_escape_search (p s : str) :
  ends_with_lone_escape p = true -> ~ In "\"%char s ->
  result (regex_search p s) = Ret false.
Proof.
  intros Hlone Hs.
  assert (He : endswith p (lit "$") = false).
  { destruct (ends_with_lone_escape_last p Hlone) as [q ->].
    unfold endswith. rewrite rev_app_distr. reflexivity. }
  unfold regex_search, regex_search_with. rewrite He, andb_false_r.
  destruct p as [|c tl]; [discriminate|]. cbn [truthy negb].
  destruct (startswith (c :: tl) (lit "^")) eqn:Hstart.
  - destruct (startswith_caret _ Hstart) as [tl' E]. injection E as -> <-.
    rewrite slice_from_1, regex_match_prefix_result. f_equal.
    apply (lone_escape_needs_backslash _ _ prefix_value_unfold); [|exact Hs].
    rewrite ends_with_lone_escape_odd in Hlone |- *. exact Hlone.
  - apply (scan_range _ (len s)).
    + intros i. apply regex_match_prefix_returns.
    + intros i _. rewrite regex_match_prefix_result, slice_from_nat. f_equal.
      apply (lone_escape_needs_backslash _ _ prefix_value_unfold);
        [exact Hlone|].
      intros Hin. apply Hs. rewrite <- (firstn_skipn i s).
      apply in_or_app. right. exact Hin.
Qed.

(** C3, as amended.  A pattern that ends in a lone [\] never raises: the
    core matchers and [regex_search] return a boolean on every subject.  The
    lone [\] is matched as a plain literal: against the remaining pattern
    [\] the full matcher returns true exactly on the subject [\] and the
    prefix matcher exactly on the subjects that start with [\]; so the core
    matchers and [regex_search] return false on every subject that holds no
    [\]. *)
Theorem lone_escape_is_a_literal (p s : str) :
  ends_with_lone_escape p = true ->
  (returns (regex_match_full p s)
   /\ returns (regex_match_prefix p s)
   /\ returns (regex_search p s))
  /\ (~ In "\"%char s ->
      result (regex_match_full p s) = Ret false
      /\ result (regex_match_prefix p s) = Ret false
      /\ result (regex_search p s) = Ret false)
  /\ result (regex_match_full (lit "\") s) =
     Ret match s with
         | [x] => Ascii.eqb "\"%char x
         | _ => false
         end
  /\ result (regex_match_prefix (lit "\") s) =
     Ret match s with
         | x :: _ => Ascii.eqb "\"%char x
         | [] => false
         end.
Proof.
  intros Hlone. split; [|split; [|split]].
  - split; [apply regex_match_full_returns|].
    split; [apply regex_match_prefix_returns|apply regex_search_returns].
  - intros Hs. rewrite regex_match_full_result, regex_match_prefix_result.
    rewrite (lone_escape_needs_backslash _ _ full_value_unfold) by assumption.
    rewrite (lone_escape_needs_backslash _ _ prefix_value_unfold)
      by assumption.
    split; [reflexivity|]. split; [reflexivity|].
    apply lone_escape_search; assumption.
  - apply lone_escape_full.
  - apply lone_escape_prefix.
Qed.

Lemma lone_escape_is_a_literal_witness :
  ends_with_lone_escape (lit "ab\") = true
  /\ (~ In "\"%char (lit "abc") ->
      result (regex_match_full (lit "ab\") (lit "abc")) = Ret false
      /\ result (regex_match_prefix (lit "ab\") (lit "abc")) = Ret false
      /\ result (regex_search (lit "ab\") (lit "abc")) = Ret false).
Proof.
  split; [reflexivity|].
  refine (proj1 (proj2 (lone_escape_is_a_literal (lit "ab\") (lit "abc") _))).
  reflexivity.
Defined.

(** C3, as stated, fails: a pattern that ends in a lone [\] matches a
    subject whose character at that place is [\]. *)
Lemma lone_escape_can_match :
  ends_with_lone_escape (lit "a\") = true
  /\ result (regex_match_full (lit "a\") (lit "a\")) = Ret true
  /\ result (regex_match_prefix (lit "a\") (lit "a\b")) = Ret true
  /\ result (regex_search (lit "a\") (lit "xa\y")) = Ret true.
Proof. repeat split; vm_compute; reflexivity. Qed.

Lemma escape_pair_is_literal (body : (str -> str -> run bool) -> str -> str -> run bool)
    (base : str -> bool) :
  (forall self r s, body self r s = core_step self base r s) ->
  forall self c rest s,
    body self ("\"%char :: c :: rest) s = escape_step self c rest s.
Proof. intros Hbody self c rest s. rewrite Hbody. reflexivity. Qed.

(** C2.  At the head of the pattern a core matcher takes [\] and the
    character [c] after it as the literal [c], whatever [c] is:
    [search("a\.b", "a.b")] is true and [search("a\.b", "axb")] is false, and
    an escaped [$] inside the pattern is a literal.  But [regex_search]
    looks for the end anchor with [endswith('$')] on the raw pattern, so
    an escaped [$] that ends the pattern is stripped as an anchor:
    [search("a\$", "a$")] is false, and [search("a\$", "a\")] is true. *)
Theorem escaped_dollar_at_end_is_an_anchor :
  (forall self c rest s,
      regex_match_full_body self ("\"%char :: c :: rest) s =
      escape_step self c rest s
      /\ regex_match_prefix_body self ("\"%char :: c :: rest) s =
         escape_step self c rest s)
  /\ result (regex_search (lit "a\.b") (lit "a.b")) = Ret true
  /\ result (regex_search (lit "a\.b") (lit "axb")) = Ret false
  /\ result (regex_search (lit "\$a") (lit "$a")) = Ret true
  /\ result (regex_search (lit "\^a") (lit "^a")) = Ret true
  /\ result (regex_search (lit "a\$") (lit "a$")) = Ret false
  /\ result (regex_search (lit "a\$") (lit "a\")) = Ret true.
Proof.
  split.
  - intros self c rest s. split.
    + apply (escape_pair_is_literal _ _ regex_match_full_body_step).
    + apply (escape_pair_is_literal _ _ regex_match_prefix_body_step).
  - repeat split; vm_compute; reflexivity.
Qed.

(** * Further properties of the engine and of the console program *)

(** ** The core matchers decide the language of the pattern *)

Lemma quantifier_of_cases (d : ascii) :
  in_chars d (lit "?*+") = true ->
  (d = "?"%char /\ quantifier_of d = Optional)
  \/ (d = "*"%char /\ quantifier_of d = Star)
  \/ (d = "+"%char /\ quantifier_of d = Plus).
Proof.
  intros Hq. destruct (in_quantifiers d Hq) as [->|[->| ->]]; auto.
Qed.

Lemma matches_single (t : token) (ts : list token) (x : ascii) (rest : str) :
  token_char t x = true -> token_quantifier t = One -> matches ts rest ->
  matches (t :: ts) (x :: rest).
Proof.
  intros Hx Hq Hrest. apply (matches_cons t ts [x] rest); [|exact Hrest].
  split; [repeat constructor; exact Hx|]. rewrite Hq. reflexivity.
Qed.

Lemma matches_single_inv (t : token) (ts : list token) (m : str) :
  token_quantifier t = One -> matches (t :: ts) m ->
  exists x rest, m = x :: rest /\ token_char t x = true /\ matches ts rest.
Proof.
  intros Hq H. inversion H as [|t' ts' chunk rest [Hall Hlen] Hrest]; subst.
  rewrite Hq in Hlen. destruct chunk as [|x [|y chunk]]; try discriminate.
  exists x, rest. split; [reflexivity|]. split; [|exact Hrest].
  inversion Hall; assumption.
Qed.

Section Language.

Variable v : str -> str -> bool.
Variable base : str -> bool.

Hypothesis v_unfold : forall r s, v r s = core_value v base r s.

Lemma v_sound (p s : str) :
  v p s = true ->
  exists m b, s = m ++ b /\ matches (tokens p) m /\ base b = true.
Proof.
  remember (depth p s) as k eqn:Hk. revert p s Hk.
  induction k as [k IH] using lt_wf_ind. intros p s -> Hv.
  assert (IH' : forall p' s', depth p' s' < depth p s -> v p' s' = true ->
                  exists m b, s' = m ++ b /\ matches (tokens p') m
                              /\ base b = true)
    by (intros p' s' Hlt; apply (IH _ Hlt); reflexivity).
  clear IH. rewrite v_unfold in Hv.
  assert (Hone : forall t p' x s',
            s = x :: s' -> depth p' s' < depth p s ->
            tokens p = t :: tokens p' -> token_quantifier t = One ->
            token_char t x && v p' s' = true ->
            exists m b, s = m ++ b /\ matches (tokens p) m /\ base b = true).
  { intros t p' x s' -> Hlt Htok Hq H. apply andb_true_iff in H.
    destruct H as [Hx H]. destruct (IH' p' s' Hlt H) as (m & b & -> & Hm & Hb).
    exists (x :: m), b. split; [reflexivity|]. split; [|exact Hb].
    rewrite Htok. apply matches_single; assumption. }
  destruct p as [|c [|d rest]]; cbn [core_value] in Hv.
  - exists [], s. repeat split; [constructor|exact Hv].
  - destruct s as [|x s']; [discriminate|].
    apply (Hone (Atom c One) [] x s'); try reflexivity; [smaller|exact Hv].
  - cbn [tokens] in *. destruct (Ascii.eqb c "\"%char) eqn:Hc.
    + destruct s as [|x s']; [discriminate|].
      apply (Hone (Escaped d) rest x s'); try reflexivity; [smaller|exact Hv].
    + destruct (in_chars d (lit "?*+")) eqn:Hq.
      * apply orb_true_iff in Hv. destruct Hv as [Hv|Hv].
        { apply andb_true_iff in Hv. destruct Hv as [Hskip Hv].
          destruct (IH' rest s) as (m & b & -> & Hm & Hb); [smaller|exact Hv|].
          exists m, b. split; [reflexivity|]. split; [|exact Hb].
          apply (matches_cons _ _ [] m); [|exact Hm].
          split; [constructor|]. cbn [token_quantifier].
          destruct (quantifier_of_cases d Hq) as [[-> ->]|[[-> ->]|[-> _]]];
            cbn [length]; try lia; discriminate. }
        destruct s as [|x s']; [discriminate|].
        apply andb_true_iff in Hv. destruct Hv as [Hx Hv].
        apply orb_true_iff in Hv. destruct Hv as [Hv|Hv].
        { destruct (IH' rest s') as (m & b & -> & Hm & Hb); [smaller|exact Hv|].
          exists (x :: m), b. split; [reflexivity|]. split; [|exact Hb].
          apply (matches_cons _ _ [x] m); [|exact Hm].
          split; [repeat constructor; exact Hx|]. cbn [token_quantifier].
          destruct (quantifier_of d); cbn [length]; lia. }
        apply andb_true_iff in Hv. destruct Hv as [Hagain Hv].
        destruct (IH' (c :: d :: rest) s') as (m & b & -> & Hm & Hb);
          [smaller|exact Hv|].
        cbn [tokens] in Hm. rewrite Hc, Hq in Hm.
        inversion Hm as [|t ts chunk m' [Hall Hlen] Hm']; subst.
        exists (x :: chunk ++ m'), b. split; [reflexivity|]. split; [|exact Hb].
        apply (matches_cons _ _ (x :: chunk) m'); [|exact Hm'].
        split; [constructor; assumption|]. cbn [token_quantifier] in *.
        destruct (quantifier_of_cases d Hq) as [[-> ->]|[[-> ->]|[-> ->]]];
          cbn [length]; try lia; discriminate.
      * destruct s as [|x s']; [discriminate|].
        apply (Hone (Atom c One) (d :: rest) x s'); try reflexivity;
          [smaller|exact Hv].
Qed.

Lemma v_quantified (c d : ascii) (rest chunk s : str) :
  Ascii.eqb c "\"%char = false ->
  in_chars d (lit "?*+") = true ->
  token_accepts (Atom c (quantifier_of d)) chunk ->
  v rest s = true ->
  v (c :: d :: rest) (chunk ++ s) = true.
Proof.
  intros Hc Hq [Hall Hlen] Hrest. cbn [token_quantifier token_char] in *.
  assert (Hstep : forall s',
            v (c :: d :: rest) s' =
            (in_chars d (lit "?*") && v rest s')
            || match s' with
               | [] => false
               | x :: s'' =>
                   regex_match c x
                   && (v rest s''
                       || (in_chars d (lit "*+") && v (c :: d :: rest) s''))
               end).
  { intros s'. rewrite v_unfold at 1. cbn [core_value]. rewrite Hc, Hq.
    reflexivity. }
  destruct (quantifier_of_cases d Hq) as [[-> Hd]|[[-> Hd]|[-> Hd]]];
    rewrite Hd in Hlen.
  - destruct chunk as [|x [|y chunk]]; cbn [length] in Hlen; try lia;
      rewrite Hstep; cbn [app].
    + rewrite Hrest. reflexivity.
    + inversion Hall as [|? ? Hx _]; subst. rewrite Hx, Hrest.
      apply orb_true_r.
  - clear Hlen. induction chunk as [|x chunk IHc]; rewrite Hstep; cbn [app].
    + rewrite Hrest. reflexivity.
    + inversion Hall as [|? ? Hx Hall']; subst. rewrite Hx, (IHc Hall').
      cbn. rewrite !orb_true_r. reflexivity.
  - destruct chunk as [|x chunk]; [cbn [length] in Hlen; lia|]. clear Hlen.
    revert x Hall. induction chunk as [|y chunk IHc]; intros x Hall;
      rewrite Hstep; cbn [app];
      inversion Hall as [|? ? Hx Hall']; subst; rewrite Hx.
    + rewrite Hrest. reflexivity.
    + pose proof (IHc y Hall') as Hagain. cbn [app] in Hagain.
      rewrite Hagain. cbn. rewrite !orb_true_r. reflexivity.
Qed.

Lemma v_complete (p m b : str) :
  matches (tokens p) m -> base b = true -> v p (m ++ b) = true.
Proof.
  remember (length p) as n eqn:Hn. revert p m Hn.
  induction n as [n IH] using lt_wf_ind. intros p m -> Hm Hb.
  assert (IH' : forall p' m', length p' < length p ->
                  matches (tokens p') m' -> v p' (m' ++ b) = true)
    by (intros p' m' Hlt Hm'; apply (IH _ Hlt); auto).
  clear IH.
  destruct p as [|c [|d rest]].
  - inversion Hm; subst. rewrite v_unfold. exact Hb.
  - cbn [tokens] in Hm.
    destruct (matches_single_inv (Atom c One) _ _ eq_refl Hm) as (x & r & -> & Hx & Hr).
    rewrite v_unfold. cbn [core_value app]. cbn [token_char] in Hx.
    rewrite Hx. apply (IH' [] r); [cbn [length]; lia|exact Hr].
  - cbn [tokens] in Hm. destruct (Ascii.eqb c "\"%char) eqn:Hc.
    + destruct (matches_single_inv (Escaped d) _ _ eq_refl Hm) as (x & r & -> & Hx & Hr).
      rewrite v_unfold. cbn [core_value app]. rewrite Hc.
      cbn [token_char] in Hx. rewrite Hx.
      apply (IH' rest r); [cbn [length]; lia|exact Hr].
    + destruct (in_chars d (lit "?*+")) eqn:Hq.
      * inversion Hm as [|t ts chunk r Hacc Hr]; subst. rewrite <- app_assoc.
        apply v_quantified; try assumption.
        apply IH'; [cbn [length]; lia|exact Hr].
      * destruct (matches_single_inv (Atom c One) _ _ eq_refl Hm)
          as (x & r & -> & Hx & Hr).
        rewrite v_unfold. cbn [core_value app]. rewrite Hc, Hq.
        cbn [token_char] in Hx. rewrite Hx.
        apply (IH' (d :: rest) r); [cbn [length]; lia|exact Hr].
Qed.

Lemma v_language (p s : str) :
  v p s = true <->
  exists m b, s = m ++ b /\ matches (tokens p) m /\ base b = true.
Proof.
  split; [apply v_sound|]. intros (m & b & -> & Hm & Hb).
  apply v_complete; assumption.
Qed.

End Language.

Lemma full_true_iff (p s : str) :
  result (regex_match_full p s) = Ret true <-> full_value p s = true.
Proof.
  rewrite regex_match_full_result. split; [intros H; injection H; auto|].
  intros ->. reflexivity.
Qed.

Lemma prefix_true_iff (p s : str) :
  result (regex_match_prefix p s) = Ret true <-> prefix_value p s = true.
Proof.
  rewrite regex_match_prefix_result. split; [intros H; injection H; auto|].
  intros ->. reflexivity.
Qed.

Lemma full_language (p s : str) :
  result (regex_match_full p s) = Ret true <-> matches (tokens p) s.
Proof.
  rewrite full_true_iff, (v_language _ _ full_value_unfold). split.
  - intros (m & b & -> & Hm & Hb). destruct b; [|discriminate].
    rewrite app_nil_r. exact Hm.
  - intros Hm. exists s, []. rewrite app_nil_r. auto.
Qed.

Lemma prefix_language (p s : str) :
  result (regex_match_prefix p s) = Ret true <->
  exists m b, s = m ++ b /\ matches (tokens p) m.
Proof.
  rewrite prefix_true_iff, (v_language _ _ prefix_value_unfold). split.
  - intros (m & b & -> & Hm & _). eauto.
  - intros (m & b & -> & Hm). exists m, b. auto.
Qed.

Lemma result_false_iff (m : run bool) :
  returns m -> (result m = Ret false <-> result m <> Ret true).
Proof.
  intros (t & [|] & ->); cbn [result]; split; congruence.
Qed.

(** X1.  The core matchers decide the language of the pattern: the full
    matcher returns true exactly on the subjects that split into one chunk
    per atom of the pattern (one matching character for a plain or escaped
    atom, at most one for [?], any number for [*], at least one for [+]),
    the prefix matcher exactly on the subjects that start with such a
    string; both return false otherwise. *)
Theorem core_matchers_decide_language (p s : str) :
  (result (regex_match_full p s) = Ret true <-> matches (tokens p) s)
  /\ (result (regex_match_full p s) = Ret false <-> ~ matches (tokens p) s)
  /\ (result (regex_match_prefix p s) = Ret true <->
      exists m b, s = m ++ b /\ matches (tokens p) m)
  /\ (result (regex_match_prefix p s) = Ret false <->
      ~ exists m b, s = m ++ b /\ matches (tokens p) m).
Proof.
  split; [apply full_language|]. split.
  - rewrite (result_false_iff _ (regex_match_full_returns p s)).
    rewrite full_language. reflexivity.
  - split; [apply prefix_language|].
    rewrite (result_false_iff _ (regex_match_prefix_returns p s)).
    rewrite prefix_language. reflexivity.
Qed.

(** X2.  The prefix matcher accepts a subject exactly when the full matcher
    accepts one of its prefixes [string[:n]]. *)
Theorem prefix_match_is_full_match_of_a_prefix (p s : str) :
  result (regex_match_prefix p s) = Ret true <->
  exists n, n <= len s /\ result (regex_match_full p (firstn n s)) = Ret true.
Proof.
  rewrite prefix_language. split.
  - intros (m & b & -> & Hm). exists (length m). split.
    + unfold len. rewrite length_app. lia.
    + rewrite firstn_app, Nat.sub_diag, firstn_all, firstn_O, app_nil_r.
      apply full_language. exact Hm.
  - intros (n & _ & H). apply full_language in H.
    exists (firstn n s), (skipn n s). split; [|exact H].
    symmetry. apply firstn_skipn.
Qed.

Lemma endswith_char (s : str) (x : ascii) :
  endswith s [x] = true <-> exists q, s = q ++ [x].
Proof.
  unfold endswith. cbn [rev app]. split.
  - destruct s as [|y s _] using rev_ind; [discriminate|].
    rewrite rev_app_distr. cbn [rev app is_prefix]. rewrite andb_true_r.
    intros H. apply Ascii.eqb_eq in H. subst y. exists s. reflexivity.
  - intros [q ->]. rewrite rev_app_distr. cbn [rev app is_prefix].
    rewrite Ascii.eqb_refl. reflexivity.
Qed.

Lemma scan_suffixes (attempt : str -> run bool) (s : str) :
  (forall t, returns (attempt t)) ->
  result (scan (range (len s + 1))
            (fun i => attempt (slice_from s (Z.of_nat i)))) = Ret true <->
  exists a t, s = a ++ t /\ result (attempt t) = Ret true.
Proof.
  intros Hret.
  destruct (scan_range (fun i => attempt (slice_from s (Z.of_nat i))) (len s))
    as (Htrue & _); [intros i; apply Hret|].
  rewrite Htrue. split.
  - intros (i & Hi & H). rewrite slice_from_nat in H.
    exists (firstn i s), (skipn i s). split; [|exact H].
    symmetry. apply firstn_skipn.
  - intros (a & t & -> & H). exists (length a). split.
    + unfold len. rewrite length_app. lia.
    + rewrite slice_from_nat, skipn_app, Nat.sub_diag, skipn_all.
      exact H.
Qed.

Lemma search_language (p s : str) :
  result (regex_search p s) = Ret true <->
  exists a m b,
    s = a ++ m ++ b
    /\ matches (tokens (core_pattern p)) m
    /\ (startswith p (lit "^") = true -> a = [])
    /\ (endswith p (lit "$") = true -> b = []).
Proof.
  unfold regex_search, regex_search_with, core_pattern.
  destruct p as [|c p'].
  - cbn. split; [intros _|reflexivity].
    exists s, [], []. rewrite app_nil_r.
    repeat split; try discriminate. constructor.
  - cbn [truthy negb]. set (p := c :: p').
    destruct (startswith p (lit "^")) eqn:Hs;
      destruct (endswith p (lit "$")) eqn:He; cbn [andb].
    + rewrite full_language. split.
      * intros Hm. exists [], s, []. rewrite app_nil_r. auto.
      * intros (a & m & b & -> & Hm & Ha & Hb).
        rewrite (Ha eq_refl), (Hb eq_refl), app_nil_r. exact Hm.
    + rewrite prefix_language. split.
      * intros (m & b & -> & Hm). exists [], m, b.
        repeat split; auto; discriminate.
      * intros (a & m & b & -> & Hm & Ha & _). rewrite (Ha eq_refl).
        exists m, b. auto.
    + rewrite (scan_suffixes (regex_match_full (slice_to p (-1))))
        by (intros; apply regex_match_full_returns).
      split.
      * intros (a & t & -> & H). apply full_language in H.
        exists a, t, []. rewrite app_nil_r. repeat split; auto; discriminate.
      * intros (a & m & b & -> & Hm & _ & Hb). rewrite (Hb eq_refl), app_nil_r.
        exists a, m. split; [reflexivity|]. apply full_language. exact Hm.
    + rewrite (scan_suffixes (regex_match_prefix p))
        by (intros; apply regex_match_prefix_returns).
      split.
      * intros (a & t & -> & H). apply prefix_language in H.
        destruct H as (m & b & -> & Hm). exists a, m, b.
        repeat split; auto; discriminate.
      * intros (a & m & b & -> & Hm & _). exists a, (m ++ b).
        split; [reflexivity|]. apply prefix_language. eauto.
Qed.

(** X3.  [regex_search] returns true exactly when the subject holds a
    string of the language of the pattern without its anchors, placed at the
    start of the subject when the pattern starts with [^] and at its end when
    the pattern ends with [$]; it returns false otherwise. *)
Theorem search_decides_anchored_language (p s : str) :
  (result (regex_search p s) = Ret true <->
   exists a m b,
     s = a ++ m ++ b
     /\ matches (tokens (core_pattern p)) m
     /\ (startswith p (lit "^") = true -> a = [])
     /\ (endswith p (lit "$") = true -> b = []))
  /\ (result (regex_search p s) = Ret false <->
      ~ exists a m b,
          s = a ++ m ++ b
          /\ matches (tokens (core_pattern p)) m
          /\ (startswith p (lit "^") = true -> a = [])
          /\ (endswith p (lit "$") = true -> b = [])).
Proof.
  split; [apply search_language|].
  rewrite (result_false_iff _ (regex_search_returns p s)).
  rewrite search_language. reflexivity.
Qed.

(** ** Literal patterns *)

Lemma ordinary_spec (c : ascii) :
  ordinary c = true ->
  Ascii.eqb c "."%char = false /\ Ascii.eqb c "\"%char = false
  /\ in_chars c (lit "?*+") = false.
Proof.
  unfold ordinary, in_chars. cbn [lit list_ascii_of_string existsb].
  intros H. apply negb_true_iff in H.
  repeat (apply orb_false_iff in H; destruct H as [? H]).
  repeat split; try assumption.
  repeat (apply orb_false_iff; split); assumption.
Qed.

Lemma tokens_ordinary (p : str) :
  forallb ordinary p = true -> tokens p = map (fun c => Atom c One) p.
Proof.
  induction p as [|c tail IH]; [reflexivity|]. cbn [forallb].
  intros H. apply andb_true_iff in H. destruct H as [Hc Htail].
  destruct tail as [|d rest]; [reflexivity|].
  destruct (ordinary_spec c Hc) as (_ & Hesc & _).
  assert (Hd : ordinary d = true)
    by (cbn [forallb] in Htail; apply andb_true_iff in Htail; tauto).
  destruct (ordinary_spec d Hd) as (_ & _ & Hq).
  change (tokens (c :: d :: rest)) with
    (if Ascii.eqb c "\"%char then Escaped d :: tokens rest
     else if in_chars d (lit "?*+") then
            Atom c (quantifier_of d) :: tokens rest
          else Atom c One :: tokens (d :: rest)).
  rewrite Hesc, Hq, (IH Htail). reflexivity.
Qed.

Lemma matches_literal (p m : str) :
  forallb ordinary p = true ->
  matches (map (fun c => Atom c One) p) m <-> m = p.
Proof.
  intros Hp. revert m. induction p as [|c p IH]; intros m; cbn [map].
  - split; [intros H; inversion H; reflexivity|intros ->; constructor].
  - cbn [forallb] in Hp. apply andb_true_iff in Hp. destruct Hp as [Hc Hp].
    destruct (ordinary_spec c Hc) as (Hdot & _ & _).
    assert (Hmatch : forall x, regex_match c x = Ascii.eqb c x)
      by (intros x; unfold regex_match; rewrite Hdot; reflexivity).
    split.
    + intros H.
      destruct (matches_single_inv (Atom c One) _ _ eq_refl H)
        as (x & r & -> & Hx & Hr).
      cbn [token_char] in Hx. rewrite Hmatch in Hx.
      apply Ascii.eqb_eq in Hx. subst x. f_equal. apply (IH Hp). exact Hr.
    + intros ->. apply matches_single; [|reflexivity|apply (IH Hp); reflexivity].
      cbn [token_char]. rewrite Hmatch. apply Ascii.eqb_refl.
Qed.

Lemma core_pattern_unanchored (p : str) :
  startswith p (lit "^") = false -> endswith p (lit "$") = false ->
  core_pattern p = p.
Proof. intros Hs He. unfold core_pattern. rewrite Hs, He. reflexivity. Qed.

(** X4.  On a pattern made of ordinary characters only (none of [.], [\],
    [?], [*], [+]) the full matcher is string equality, the prefix matcher
    is [startswith], and [regex_search], when the pattern has no anchor, is
    substring containment. *)
Theorem literal_pattern_is_substring_search (p s : str) :
  forallb ordinary p = true ->
  (result (regex_match_full p s) = Ret true <-> s = p)
  /\ (result (regex_match_prefix p s) = Ret true <-> exists b, s = p ++ b)
  /\ (startswith p (lit "^") = false -> endswith p (lit "$") = false ->
      (result (regex_search p s) = Ret true <-> exists a b, s = a ++ p ++ b)).
Proof.
  intros Hp. split; [|split].
  - rewrite full_language, (tokens_ordinary p Hp). apply matches_literal, Hp.
  - rewrite prefix_language, (tokens_ordinary p Hp). split.
    + intros (m & b & -> & Hm). apply (matches_literal p m Hp) in Hm.
      subst m. eauto.
    + intros (b & ->). exists p, b. split; [reflexivity|].
      apply (matches_literal p p Hp). reflexivity.
  - intros Hs He. rewrite search_language.
    rewrite (core_pattern_unanchored p Hs He), (tokens_ordinary p Hp). split.
    + intros (a & m & b & -> & Hm & _). apply (matches_literal p m Hp) in Hm.
      subst m. eauto.
    + intros (a & b & ->). exists a, p, b. split; [reflexivity|].
      split; [apply (matches_literal p p Hp); reflexivity|].
      rewrite Hs, He. split; discriminate.
Qed.

Lemma literal_pattern_is_substring_search_witness :
  forallb ordinary (lit "abc") = true
  /\ (result (regex_match_full (lit "abc") (lit "abd")) = Ret true <->
      lit "abd" = lit "abc").
Proof.
  split; [reflexivity|].
  refine (proj1 (literal_pattern_is_substring_search (lit "abc") (lit "abd")
                   _)).
  reflexivity.
Defined.

(** ** Anchors *)

Lemma startswith_caret_cons (p : str) : startswith ("^"%char :: p) (lit "^") = true.
Proof. reflexivity. Qed.

Lemma endswith_dollar_snoc (p : str) : endswith (p ++ ["$"%char]) (lit "$") = true.
Proof. apply (endswith_char _ "$"%char). exists p. reflexivity. Qed.

Lemma endswith_caret_cons (p : str) :
  endswith ("^"%char :: p) (lit "$") = endswith p (lit "$").
Proof.
  destruct (endswith p (lit "$")) eqn:He.
  - apply (endswith_char _ "$"%char) in He. destruct He as [q ->].
    apply (endswith_char _ "$"%char). exists ("^"%char :: q). reflexivity.
  - destruct (endswith ("^"%char :: p) (lit "$")) eqn:He'; [|reflexivity].
    apply (endswith_char _ "$"%char) in He'. destruct He' as [q Hq].
    destruct q as [|c q]; [discriminate|]. injection Hq as _ ->.
    rewrite endswith_dollar_snoc in He. discriminate.
Qed.

Lemma startswith_dollar_snoc (p : str) :
  startswith (p ++ ["$"%char]) (lit "^") = startswith p (lit "^").
Proof. destruct p; reflexivity. Qed.

Lemma core_pattern_both (p : str) :
  core_pattern ("^"%char :: p ++ ["$"%char]) = p.
Proof.
  unfold core_pattern.
  rewrite startswith_caret_cons, endswith_caret_cons, endswith_dollar_snoc.
  cbn [andb].
  rewrite slice_mid_inner. apply removelast_last.
Qed.

Lemma core_pattern_start (p : str) :
  endswith p (lit "$") = false -> core_pattern ("^"%char :: p) = p.
Proof.
  intros He. unfold core_pattern.
  rewrite startswith_caret_cons, endswith_caret_cons, He. cbn [andb].
  apply slice_from_1.
Qed.

Lemma core_pattern_end (p : str) :
  startswith p (lit "^") = false -> core_pattern (p ++ ["$"%char]) = p.
Proof.
  intros Hs. unfold core_pattern.
  rewrite startswith_dollar_snoc, Hs, endswith_dollar_snoc. cbn [andb].
  rewrite slice_to_last. apply removelast_last.
Qed.

(** X5.  A match found by [regex_search] survives more text around the
    subject: before it unless the pattern starts with [^], after it unless
    the pattern ends with [$]. *)
Theorem search_survives_subject_extension (p s a b : str) :
  (startswith p (lit "^") = true -> a = []) ->
  (endswith p (lit "$") = true -> b = []) ->
  result (regex_search p s) = Ret true ->
  result (regex_search p (a ++ s ++ b)) = Ret true.
Proof.
  intros Ha Hb H. apply search_language in H.
  destruct H as (a0 & m & b0 & -> & Hm & Ha0 & Hb0).
  apply search_language. exists (a ++ a0), m, (b0 ++ b).
  split; [rewrite <- !app_assoc; reflexivity|]. split; [exact Hm|]. split.
  - intros Hs. rewrite (Ha Hs), (Ha0 Hs). reflexivity.
  - intros He. rewrite (Hb He), (Hb0 He). reflexivity.
Qed.

Lemma search_survives_subject_extension_witness :
  (startswith (lit "b+") (lit "^") = true -> lit "aa" = [])
  /\ (endswith (lit "b+") (lit "$") = true -> lit "cc" = [])
  /\ result (regex_search (lit "b+") (lit "bb")) = Ret true
  /\ result (regex_search (lit "b+") (lit "aa" ++ lit "bb" ++ lit "cc")) =
     Ret true.
Proof.
  assert (Ha : startswith (lit "b+") (lit "^") = true -> lit "aa" = [])
    by (intros H; discriminate H).
  assert (Hb : endswith (lit "b+") (lit "$") = true -> lit "cc" = [])
    by (intros H; discriminate H).
  assert (H : result (regex_search (lit "b+") (lit "bb")) = Ret true)
    by (vm_compute; reflexivity).
  split; [exact Ha|]. split; [exact Hb|]. split; [exact H|].
  exact (search_survives_subject_extension (lit "b+") (lit "bb") (lit "aa")
           (lit "cc") Ha Hb H).
Defined.

(** X6.  Anchors only restrict: for a pattern [p] without anchors, a match
    of [^p$] is a match of [^p] and of [p$], and a match of [^p] or of [p$]
    is a match of [p]. *)
Theorem anchors_only_restrict (p s : str) :
  startswith p (lit "^") = false ->
  endswith p (lit "$") = false ->
  (result (regex_search ("^"%char :: p ++ ["$"%char]) s) = Ret true ->
   result (regex_search ("^"%char :: p) s) = Ret true
   /\ result (regex_search (p ++ ["$"%char]) s) = Ret true)
  /\ (result (regex_search ("^"%char :: p) s) = Ret true ->
      result (regex_search p s) = Ret true)
  /\ (result (regex_search (p ++ ["$"%char]) s) = Ret true ->
      result (regex_search p s) = Ret true).
Proof.
  intros Hs He. rewrite !search_language.
  rewrite core_pattern_both, (core_pattern_start p He),
    (core_pattern_end p Hs), (core_pattern_unanchored p Hs He).
  rewrite !startswith_caret_cons, !startswith_dollar_snoc, Hs, He.
  rewrite !endswith_caret_cons, !endswith_dollar_snoc, He.
  split; [|split].
  - intros (a & m & b & -> & Hm & Ha & Hb). split; exists a, m, b; auto.
  - intros (a & m & b & -> & Hm & _). exists a, m, b.
    repeat split; auto; discriminate.
  - intros (a & m & b & -> & Hm & _). exists a, m, b.
    repeat split; auto; discriminate.
Qed.

Lemma anchors_only_restrict_witness :
  startswith (lit "ab") (lit "^") = false
  /\ endswith (lit "ab") (lit "$") = false
  /\ (result (regex_search ("^"%char :: lit "ab") (lit "abc")) = Ret true ->
      result (regex_search (lit "ab") (lit "abc")) = Ret true).
Proof.
  split; [reflexivity|]. split; [reflexivity|].
  refine (proj1 (proj2 (anchors_only_restrict (lit "ab") (lit "abc") _ _)));
    reflexivity.
Defined.

(** ** Equivalent patterns *)

Lemma result_eq_iff (m1 m2 : run bool) :
  returns m1 -> returns m2 ->
  (result m1 = Ret true <-> result m2 = Ret true) ->
  result m1 = result m2.
Proof.
  intros (t1 & [|] & ->) (t2 & [|] & ->) [H12 H21]; cbn [result] in *;
    try reflexivity.
  - symmetry. apply H12. reflexivity.
  - apply H21. reflexivity.
Qed.

Lemma matches_any_star (ts : list token) (a m : str) :
  matches ts m -> matches (Atom "."%char Star :: ts) (a ++ m).
Proof.
  intros Hm. apply matches_cons; [|exact Hm]. split; [|exact I].
  apply Forall_forall. intros x _. reflexivity.
Qed.

Lemma matches_any_star_inv (ts : list token) (s : str) :
  matches (Atom "."%char Star :: ts) s ->
  exists a m, s = a ++ m /\ matches ts m.
Proof. intros H. inversion H; subst. eauto. Qed.

Lemma tokens_any_star (p : str) :
  tokens ("."%char :: "*"%char :: p) = Atom "."%char Star :: tokens p.
Proof. reflexivity. Qed.

(** X7.  Scanning the start offsets is the same as a leading [.*]: for a
    pattern [p] that does not start with [^], [regex_search] on [p$] returns
    what the full matcher returns on [.*p], and when [p] does not end
    with [$] either, [regex_search] on [p] returns what the prefix matcher
    returns on [.*p]. *)
Theorem scan_is_leading_any_star (p s : str) :
  startswith p (lit "^") = false ->
  result (regex_search (p ++ ["$"%char]) s) =
  result (regex_match_full ("."%char :: "*"%char :: p) s)
  /\ (endswith p (lit "$") = false ->
      result (regex_search p s) =
      result (regex_match_prefix ("."%char :: "*"%char :: p) s)).
Proof.
  intros Hs. split; [|intros He]; apply result_eq_iff;
    try apply regex_search_returns; try apply regex_match_full_returns;
    try apply regex_match_prefix_returns.
  - rewrite search_language, full_language, tokens_any_star.
    rewrite (core_pattern_end p Hs). split.
    + intros (a & m & b & -> & Hm & _ & Hb).
      rewrite (Hb (endswith_dollar_snoc p)), app_nil_r.
      apply matches_any_star. exact Hm.
    + intros H. destruct (matches_any_star_inv _ _ H) as (a & m & -> & Hm).
      exists a, m, []. rewrite app_nil_r. split; [reflexivity|].
      split; [exact Hm|]. split; [|reflexivity].
      rewrite startswith_dollar_snoc, Hs. discriminate.
  - rewrite search_language, prefix_language, tokens_any_star.
    rewrite (core_pattern_unanchored p Hs He). split.
    + intros (a & m & b & -> & Hm & _). exists (a ++ m), b.
      split; [rewrite app_assoc; reflexivity|].
      apply matches_any_star. exact Hm.
    + intros (m' & b & -> & H).
      destruct (matches_any_star_inv _ _ H) as (a & m & -> & Hm).
      exists a, m, b. split; [rewrite app_assoc; reflexivity|].
      split; [exact Hm|]. rewrite Hs, He. split; discriminate.
Qed.

Lemma scan_is_leading_any_star_witness :
  startswith (lit "bc") (lit "^") = false
  /\ result (regex_search (lit "bc" ++ ["$"%char]) (lit "abc")) =
     result (regex_match_full ("."%char :: "*"%char :: lit "bc") (lit "abc")).
Proof.
  split; [reflexivity|].
  refine (proj1 (scan_is_leading_any_star (lit "bc") (lit "abc") _)).
  reflexivity.
Defined.

Lemma matches_plus_unfold (c : ascii) (ts : list token) (m : str) :
  matches (Atom c Plus :: ts) m <->
  matches (Atom c One :: Atom c Star :: ts) m.
Proof.
  split; intros H.
  - inversion H as [|t ts' chunk r [Hall Hlen] Hr]; subst.
    destruct chunk as [|x chunk]; [cbn in Hlen; lia|].
    inversion Hall as [|? ? Hx Hall']; subst.
    apply (matches_single (Atom c One)); [exact Hx|reflexivity|].
    apply matches_cons; [|exact Hr]. split; [exact Hall'|exact I].
  - destruct (matches_single_inv (Atom c One) _ _ eq_refl H)
      as (x & r & -> & Hx & Hr).
    inversion Hr as [|t ts' chunk r' [Hall _] Hr']; subst.
    apply (matches_cons (Atom c Plus) ts (x :: chunk) r'); [|exact Hr'].
    split; [constructor; assumption|]. cbn. lia.
Qed.

Lemma matches_star_star (c : ascii) (ts : list token) (m : str) :
  matches (Atom c Star :: Atom c Star :: ts) m <->
  matches (Atom c Star :: ts) m.
Proof.
  split; intros H.
  - inversion H as [|t ts' chunk r [Hall _] Hr]; subst.
    inversion Hr as [|t ts' chunk' r' [Hall' _] Hr']; subst.
    rewrite app_assoc. apply matches_cons; [|exact Hr'].
    split; [apply Forall_app; split; assumption|exact I].
  - inversion H as [|t ts' chunk r Hacc Hr]; subst.
    apply matches_cons; [exact Hacc|].
    apply (matches_cons _ _ [] r); [|exact Hr]. split; [constructor|exact I].
Qed.

Lemma same_language_same_result (p q s : str) :
  (forall m, matches (tokens p) m <-> matches (tokens q) m) ->
  result (regex_match_full p s) = result (regex_match_full q s)
  /\ result (regex_match_prefix p s) = result (regex_match_prefix q s).
Proof.
  intros H. split; apply result_eq_iff;
    try apply regex_match_full_returns; try apply regex_match_prefix_returns.
  - rewrite !full_language. apply H.
  - rewrite !prefix_language. split; intros (m & b & -> & Hm);
      exists m, b; (split; [reflexivity|]); apply H; exact Hm.
Qed.

(** X8.  For an atom [c] that is neither the escape character nor a
    quantifier character, [c+] and [cc*] are the same pattern for both core
    matchers. *)
Theorem plus_is_atom_then_star (c : ascii) (rest s : str) :
  c <> "\"%char ->
  in_chars c (lit "?*+") = false ->
  result (regex_match_full (c :: "+"%char :: rest) s) =
  result (regex_match_full (c :: c :: "*"%char :: rest) s)
  /\ result (regex_match_prefix (c :: "+"%char :: rest) s) =
     result (regex_match_prefix (c :: c :: "*"%char :: rest) s).
Proof.
  intros Hc Hq. apply Ascii.eqb_neq in Hc. apply same_language_same_result.
  intros m. cbn [tokens]. rewrite Hc, Hq.
  change (in_chars "+"%char (lit "?*+")) with true.
  change (in_chars "*"%char (lit "?*+")) with true. cbv iota.
  apply matches_plus_unfold.
Qed.

Lemma plus_is_atom_then_star_witness :
  "a"%char <> "\"%char
  /\ in_chars "a"%char (lit "?*+") = false
  /\ result (regex_match_full ("a"%char :: "+"%char :: lit "b") (lit "aab")) =
     result (regex_match_full ("a"%char :: "a"%char :: "*"%char :: lit "b")
               (lit "aab")).
Proof.
  split; [discriminate|]. split; [reflexivity|].
  refine (proj1 (plus_is_atom_then_star "a"%char (lit "b") (lit "aab") _ _));
    [discriminate|reflexivity].
Defined.

(** X9.  A repeated starred atom [c*c*] is matched like a single [c*] by
    both core matchers, whatever follows. *)
Theorem repeated_star_is_one_star (c : ascii) (rest s : str) :
  c <> "\"%char ->
  result (regex_match_full (c :: "*"%char :: c :: "*"%char :: rest) s) =
  result (regex_match_full (c :: "*"%char :: rest) s)
  /\ result (regex_match_prefix (c :: "*"%char :: c :: "*"%char :: rest) s) =
     result (regex_match_prefix (c :: "*"%char :: rest) s).
Proof.
  intros Hc. apply Ascii.eqb_neq in Hc. apply same_language_same_result.
  intros m. cbn [tokens]. rewrite Hc.
  change (in_chars "*"%char (lit "?*+")) with true. cbv iota.
  apply matches_star_star.
Qed.

Lemma repeated_star_is_one_star_witness :
  "a"%char <> "\"%char
  /\ result (regex_match_full
               ("a"%char :: "*"%char :: "a"%char :: "*"%char :: lit "b")
               (lit "aac")) =
     result (regex_match_full ("a"%char :: "*"%char :: lit "b") (lit "aac")).
Proof.
  split; [discriminate|].
  refine (proj1 (repeated_star_is_one_star "a"%char (lit "b") (lit "aac") _)).
  discriminate.
Defined.

(** ** Patterns without quantifiers do not backtrack *)

Lemma tokens_cons_cons (c d : ascii) (rest : str) :
  tokens (c :: d :: rest) =
  if Ascii.eqb c "\"%char then Escaped d :: tokens rest
  else if in_chars d (lit "?*+") then Atom c (quantifier_of d) :: tokens rest
  else Atom c One :: tokens (d :: rest).
Proof. reflexivity. Qed.

Section Calls.

Variable base : str -> bool.
Variable ev : str -> str -> event.
Variable F : str -> str -> run bool.

Hypothesis F_unfold : forall r s,
    F r s = enter (ev r s) (core_step F base r s).

Lemma unquantified_calls (p s : str) :
  unquantified p = true ->
  length (trace (F p s)) <= S (Nat.min (length (tokens p)) (len s)).
Proof.
  remember (depth p s) as k eqn:Hk. revert p s Hk.
  induction k as [k IH] using lt_wf_ind. intros p s -> Hp.
  assert (IH' : forall p' s', depth p' s' < depth p s ->
                  unquantified p' = true ->
                  length (trace (F p' s'))
                  <= S (Nat.min (length (tokens p')) (len s')))
    by (intros p' s' Hlt; apply (IH _ Hlt); reflexivity).
  clear IH. rewrite F_unfold. cbn [enter trace length]. apply le_n_S.
  assert (Hone : forall (hit : bool) t p' x s',
            s = x :: s' -> depth p' s' < depth p s ->
            tokens p = t :: tokens p' -> unquantified p' = true ->
            length (trace (if hit then F p' s' else ret false))
            <= Nat.min (length (tokens p)) (len s)).
  { intros hit t p' x s' -> Hlt Htok Hp'. rewrite Htok.
    destruct hit; [|cbn; lia].
    specialize (IH' p' s' Hlt Hp'). unfold len in *. cbn [length]. lia. }
  unfold unquantified in Hp.
  destruct p as [|c [|d rest]]; cbn [core_step].
  - cbn. lia.
  - unfold plain_step. destruct s as [|x s']; [cbn; lia|].
    apply (Hone _ (Atom c One) [] x s'); try reflexivity. smaller.
  - cbn [tokens] in *. destruct (Ascii.eqb c "\"%char).
    + cbn [forallb] in Hp. apply andb_true_iff in Hp. destruct Hp as [_ Hp].
      unfold escape_step. destruct s as [|x s']; [cbn; lia|].
      apply (Hone _ (Escaped d) rest x s'); try reflexivity;
        [smaller|exact Hp].
    + destruct (in_chars d (lit "?*+")) eqn:Hq.
      * cbn [forallb token_quantifier] in Hp.
        destruct (quantifier_of_cases d Hq) as [[_ E]|[[_ E]|[_ E]]];
          rewrite E in Hp; discriminate.
      * cbn [forallb] in Hp. apply andb_true_iff in Hp.
        destruct Hp as [_ Hp].
        unfold plain_step. destruct s as [|x s']; [cbn; lia|].
        apply (Hone _ (Atom c One) (d :: rest) x s'); try reflexivity;
          [smaller|exact Hp].
Qed.

End Calls.

(** X10.  A pattern in which no atom carries a quantifier is matched
    without backtracking: a core matcher is entered at most once per atom
    and per subject character, plus once, so at most [len(pattern) + 1]
    times. *)
Theorem unquantified_pattern_does_not_backtrack (p s : str) :
  unquantified p = true ->
  length (trace (regex_match_full p s))
  <= S (Nat.min (length (tokens p)) (len s))
  /\ length (trace (regex_match_prefix p s))
     <= S (Nat.min (length (tokens p)) (len s))
  /\ length (tokens p) <= len p.
Proof.
  intros Hp. split; [|split].
  - apply (unquantified_calls _ _ _ regex_match_full_unfold). exact Hp.
  - apply (unquantified_calls _ _ _ regex_match_prefix_unfold). exact Hp.
  - clear Hp. remember (length p) as n eqn:Hn. revert p Hn.
    induction n as [n IH] using lt_wf_ind. intros p ->.
    destruct p as [|c [|d rest]]; [cbn; lia|cbn; lia|].
    assert (H1 : length (tokens rest) <= len rest)
      by (apply (IH (length rest)); [cbn [length]; lia|reflexivity]).
    assert (H2 : length (tokens (d :: rest)) <= len (d :: rest))
      by (apply (IH (length (d :: rest))); [cbn [length]; lia|reflexivity]).
    unfold len in *. rewrite tokens_cons_cons.
    destruct (Ascii.eqb c "\"%char); [cbn [length] in *; lia|].
    destruct (in_chars d (lit "?*+")); cbn [length] in *; lia.
Qed.

Lemma unquantified_pattern_does_not_backtrack_witness :
  unquantified (lit "a.\*c") = true
  /\ length (trace (regex_match_full (lit "a.\*c") (lit "ab*c")))
     <= S (Nat.min (length (tokens (lit "a.\*c"))) (len (lit "ab*c"))).
Proof.
  split; [reflexivity|].
  refine (proj1 (unquantified_pattern_does_not_backtrack (lit "a.\*c")
                   (lit "ab*c") _)).
  reflexivity.
Defined.

(** ** The console program *)

Lemma split_on_not_nil (sep : ascii) (s : str) : split_on sep s <> [].
Proof.
  destruct s as [|c s]; cbn [split_on]; [discriminate|].
  destruct (Ascii.eqb c sep); [discriminate|].
  destruct (split_on sep s); discriminate.
Qed.

Lemma split_on_no_sep (sep : ascii) (s : str) :
  ~ In sep s -> split_on sep s = [s].
Proof.
  induction s as [|c s IH]; intros H; [reflexivity|]. cbn [split_on].
  assert (Hc : Ascii.eqb c sep = false)
    by (apply Ascii.eqb_neq; intros ->; apply H; left; reflexivity).
  rewrite Hc, IH; [reflexivity|]. intros Hin. apply H. right. exact Hin.
Qed.

Lemma split_on_app (sep : ascii) (a b : str) :
  ~ In sep a -> split_on sep (a ++ sep :: b) = a :: split_on sep b.
Proof.
  induction a as [|c a IH]; intros H; cbn [app split_on].
  - rewrite Ascii.eqb_refl. reflexivity.
  - assert (Hc : Ascii.eqb c sep = false)
      by (apply Ascii.eqb_neq; intros ->; apply H; left; reflexivity).
    rewrite Hc, IH; [reflexivity|]. intros Hin. apply H. right. exact Hin.
Qed.

Lemma split_on_one (sep : ascii) (s b : str) :
  split_on sep s = [b] -> s = b /\ ~ In sep b.
Proof.
  revert b. induction s as [|c s IH]; intros b; cbn [split_on].
  - intros H. injection H as <-. auto.
  - destruct (Ascii.eqb c sep) eqn:Hc.
    + intros H. injection H as _ H. destruct (split_on_not_nil _ _ H).
    + destruct (split_on sep s) as [|part parts] eqn:E.
      { destruct (split_on_not_nil _ _ E). }
      intros H. injection H as <- ->. destruct (IH part eq_refl) as [-> Hin].
      split; [reflexivity|]. intros [->|Hin']; [|exact (Hin Hin')].
      rewrite Ascii.eqb_refl in Hc. discriminate.
Qed.

Lemma split_on_two (sep : ascii) (s a b : str) :
  split_on sep s = [a; b] ->
  s = a ++ sep :: b /\ ~ In sep a /\ ~ In sep b.
Proof.
  revert a. induction s as [|c s IH]; intros a; cbn [split_on].
  - discriminate.
  - destruct (Ascii.eqb c sep) eqn:Hc.
    + intros H. injection H as <- H. apply Ascii.eqb_eq in Hc. subst c.
      destruct (split_on_one _ _ _ H) as [-> Hin]. auto.
    + destruct (split_on sep s) as [|part parts] eqn:E.
      { destruct (split_on_not_nil _ _ E). }
      intros H. injection H as <- ->.
      destruct (IH part eq_refl) as (-> & Ha & Hb).
      split; [reflexivity|]. split; [|exact Hb].
      intros [->|Hin']; [|exact (Ha Hin')].
      rewrite Ascii.eqb_refl in Hc. discriminate.
Qed.

Lemma split_on_length (sep : ascii) (s : str) :
  length (split_on sep s) = S (count_occ ascii_dec s sep).
Proof.
  induction s as [|c s IH]; [reflexivity|]. cbn [split_on count_occ].
  destruct (Ascii.eqb c sep) eqn:Hc.
  - apply Ascii.eqb_eq in Hc. subst c.
    destruct (ascii_dec sep sep); [|contradiction]. cbn [length].
    rewrite IH. reflexivity.
  - apply Ascii.eqb_neq in Hc.
    destruct (ascii_dec c sep); [contradiction|].
    destruct (split_on sep s) as [|part parts] eqn:E.
    { destruct (split_on_not_nil _ _ E). }
    cbn [length] in *. exact IH.
Qed.

Lemma main_framed (regex text : str) :
  ~ In "|"%char regex -> ~ In "|"%char text ->
  main (regex ++ "|"%char :: text) =
  Ret (str_of_bool (value (regex_search regex text))).
Proof.
  intros Hr Ht. unfold main.
  rewrite (split_on_app _ _ _ Hr), (split_on_no_sep _ _ Ht).
  cbn [unpack_pair].
  rewrite (result_value _ (regex_search_returns regex text)). reflexivity.
Qed.

Lemma str_of_bool_true (b : bool) : str_of_bool b = lit "True" -> b = true.
Proof. destruct b; [reflexivity|discriminate]. Qed.

(** X11.  [main] prints [True] or [False] on every input line, and prints
    [True] exactly when the line is [regex|text] with a single [|] and
    [regex_search(regex, text)] is true. *)
Theorem main_prints_the_search_result (line : str) :
  (main line = Ret (lit "True") \/ main line = Ret (lit "False"))
  /\ (main line = Ret (lit "True") <->
      exists regex text,
        line = regex ++ "|"%char :: text
        /\ ~ In "|"%char regex /\ ~ In "|"%char text
        /\ result (regex_search regex text) = Ret true).
Proof.
  unfold main.
  destruct (split_on "|"%char line) as [|a [|b [|c parts]]] eqn:E;
    cbn [unpack_pair].
  1, 2, 4: split; [right; reflexivity|]; split; [discriminate|];
    intros (regex & text & -> & Hr & Ht & _);
    rewrite (split_on_app _ _ _ Hr), (split_on_no_sep _ _ Ht) in E;
    discriminate.
  destruct (split_on_two _ _ _ _ E) as (-> & Ha & Hb).
  rewrite (result_value _ (regex_search_returns a b)).
  split; [destruct (value (regex_search a b)); auto|]. split.
  - intros H. injection H as H. apply str_of_bool_true in H.
    exists a, b. repeat split; try assumption.
    rewrite (result_value _ (regex_search_returns a b)), H. reflexivity.
  - intros (regex & text & Hline & Hr & Ht & H).
    assert (Hsplit : split_on "|"%char (regex ++ "|"%char :: text) = [a; b])
      by (rewrite <- Hline; exact E).
    rewrite (split_on_app _ _ _ Hr), (split_on_no_sep _ _ Ht) in Hsplit.
    injection Hsplit as <- <-.
    rewrite (result_value _ (regex_search_returns regex text)) in H.
    injection H as ->. reflexivity.
Qed.

(** X12.  A line that does not hold exactly one [|] makes the unpacking
    raise [ValueError], which [main] catches: it prints [False]. *)
Theorem main_rejects_bad_framing (line : str) :
  count_occ ascii_dec line "|"%char <> 1 ->
  main line = Ret (lit "False").
Proof.
  intros Hcount. unfold main.
  pose proof (split_on_length "|"%char line) as Hlen.
  destruct (split_on "|"%char line) as [|a [|b [|c parts]]];
    cbn [unpack_pair]; try reflexivity.
  cbn [length] in Hlen. lia.
Qed.

Lemma main_rejects_bad_framing_witness :
  count_occ ascii_dec (lit "a|b|ab") "|"%char <> 1
  /\ main (lit "a|b|ab") = Ret (lit "False").
Proof.
  assert (H : count_occ ascii_dec (lit "a|b|ab") "|"%char <> 1)
    by (vm_compute; discriminate).
  split; [exact H|]. exact (main_rejects_bad_framing (lit "a|b|ab") H).
Defined.

(** ** The calls of a core matcher *)

Lemma in_trace_bind {A B : Type} (m : run A) (f : A -> run B) (e : event) :
  In e (trace (bind m f)) ->
  In e (trace m) \/ exists a, In e (trace (f a)).
Proof.
  unfold bind. destruct (result m) as [a| |]; cbn [trace]; auto.
  intros H. apply in_app_or in H. destruct H; eauto.
Qed.

Lemma is_suffix_refl (s : str) : is_suffix s s.
Proof. exists []. reflexivity. Qed.

Lemma is_suffix_trans (r s t : str) :
  is_suffix r s -> is_suffix s t -> is_suffix r t.
Proof.
  intros [a ->] [b ->]. exists (b ++ a). apply app_assoc.
Qed.

Lemma is_suffix_cons (x : ascii) (s : str) : is_suffix s (x :: s).
Proof. exists [x]. reflexivity. Qed.

Lemma is_suffix_cons_cons (x y : ascii) (s : str) : is_suffix s (x :: y :: s).
Proof. exists [x; y]. reflexivity. Qed.

Lemma core_step_trace (F : str -> str -> run bool) (base : str -> bool)
    (p s : str) (e : event) :
  In e (trace (core_step F base p s)) ->
  exists r' s',
    depth r' s' < depth p s /\ is_suffix r' p /\ is_suffix s' s
    /\ In e (trace (F r' s')).
Proof.
  assert (Hcall : forall r' s',
            depth r' s' < depth p s -> is_suffix r' p -> is_suffix s' s ->
            In e (trace (F r' s')) ->
            exists r' s',
              depth r' s' < depth p s /\ is_suffix r' p /\ is_suffix s' s
              /\ In e (trace (F r' s')))
    by (intros r' s' ? ? ? ?; exists r', s'; auto).
  assert (Hconsume : forall b c d rest, p = c :: d :: rest ->
            In e (trace (consume F b c d rest s)) ->
            exists r' s',
              depth r' s' < depth p s /\ is_suffix r' p /\ is_suffix s' s
              /\ In e (trace (F r' s'))).
  { intros b c d rest -> H. unfold consume in H.
    destruct s as [|x s']; [contradiction|].
    destruct (regex_match c x); [|contradiction].
    apply in_trace_bind in H. destruct H as [H|[a H]].
    - apply (Hcall rest s'); [smaller|apply is_suffix_cons_cons|
                              apply is_suffix_cons|exact H].
    - destruct a; [contradiction|]. destruct b; [|contradiction].
      apply (Hcall (c :: d :: rest) s'); [smaller|apply is_suffix_refl|
                                          apply is_suffix_cons|exact H]. }
  destruct p as [|c [|d rest]]; cbn [core_step].
  - contradiction.
  - unfold plain_step. destruct s as [|x s']; [contradiction|].
    destruct (regex_match c x); [|contradiction]. intros H.
    apply (Hcall [] s'); [smaller|apply is_suffix_cons|apply is_suffix_cons|
                          exact H].
  - destruct (Ascii.eqb c "\"%char).
    + unfold escape_step. destruct s as [|x s']; [contradiction|].
      destruct (Ascii.eqb d x); [|contradiction]. intros H.
      apply (Hcall rest s'); [smaller|apply is_suffix_cons_cons|
                              apply is_suffix_cons|exact H].
    + destruct (in_chars d (lit "?*+")).
      * unfold quantified_step, skip. intros H.
        assert (Hskip : forall b,
                  In e (trace (skipped <- F rest s ;;
                               if skipped then ret true
                               else consume F b c d rest s)) ->
                  exists r' s',
                    depth r' s' < depth (c :: d :: rest) s
                    /\ is_suffix r' (c :: d :: rest) /\ is_suffix s' s
                    /\ In e (trace (F r' s'))).
        { intros b Hb. apply in_trace_bind in Hb. destruct Hb as [Hb|[a Hb]].
          - apply (Hcall rest s); [smaller|apply is_suffix_cons_cons|
                                   apply is_suffix_refl|exact Hb].
          - destruct a; [contradiction|].
            apply (Hconsume b c d rest eq_refl Hb). }
        destruct (Ascii.eqb d "?"%char); [exact (Hskip _ H)|].
        destruct (Ascii.eqb d "*"%char); [exact (Hskip _ H)|].
        apply (Hconsume true c d rest eq_refl H).
      * unfold plain_step. destruct s as [|x s']; [contradiction|].
        destruct (regex_match c x); [|contradiction]. intros H.
        apply (Hcall (d :: rest) s'); [smaller|apply is_suffix_cons|
                                       apply is_suffix_cons|exact H].
Qed.

Section Suffixes.

Variable base : str -> bool.
Variable ev : str -> str -> event.
Variable F : str -> str -> run bool.

Hypothesis F_unfold : forall r s,
    F r s = enter (ev r s) (core_step F base r s).

Lemma calls_on_suffixes (p s : str) (e : event) :
  In e (trace (F p s)) ->
  exists r' s', e = ev r' s' /\ is_suffix r' p /\ is_suffix s' s.
Proof.
  remember (depth p s) as k eqn:Hk. revert p s Hk.
  induction k as [k IH] using lt_wf_ind. intros p s -> H.
  rewrite F_unfold in H. cbn [enter trace] in H. destruct H as [<-|H].
  - exists p, s. split; [reflexivity|]. split; apply is_suffix_refl.
  - apply core_step_trace in H.
    destruct H as (r' & s' & Hlt & Hr & Hs & H).
    destruct (IH _ Hlt r' s' eq_refl H) as (r'' & s'' & -> & Hr' & Hs').
    exists r'', s''. split; [reflexivity|].
    split; eapply is_suffix_trans; eassumption.
Qed.

End Suffixes.

(** X13.  Every call a core matcher makes, at any depth, is on a suffix of
    the pattern and a suffix of the subject. *)
Theorem matcher_calls_stay_on_suffixes (p s : str) (e : event) :
  In e (trace (regex_match_full p s)) \/ In e (trace (regex_match_prefix p s)) ->
  is_suffix (fst (event_args e)) p /\ is_suffix (snd (event_args e)) s.
Proof.
  intros [H|H].
  - destruct (calls_on_suffixes _ _ _ regex_match_full_unfold _ _ _ H)
      as (r' & s' & -> & Hr & Hs). split; assumption.
  - destruct (calls_on_suffixes _ _ _ regex_match_prefix_unfold _ _ _ H)
      as (r' & s' & -> & Hr & Hs). split; assumption.
Qed.

Lemma matcher_calls_stay_on_suffixes_witness :
  In (EFull (lit "b") (lit "b")) (trace (regex_match_full (lit "ab") (lit "ab")))
  /\ is_suffix (lit "b") (lit "ab").
Proof.
  assert (H : In (EFull (lit "b") (lit "b"))
                (trace (regex_match_full (lit "ab") (lit "ab"))))
    by (vm_compute; right; left; reflexivity).
  split; [exact H|].
  exact (proj1 (matcher_calls_stay_on_suffixes (lit "ab") (lit "ab")
                  (EFull (lit "b") (lit "b")) (or_introl H))).
Defined.

(** ** Length of a match *)

Lemma matches_cons_inv (t : token) (ts : list token) (m : str) :
  matches (t :: ts) m ->
  exists chunk r, m = chunk ++ r /\ token_accepts t chunk /\ matches ts r.
Proof. intros H. inversion H; subst. eauto. Qed.

Lemma matches_nil_iff (ts : list token) :
  matches ts [] <-> forallb nullable ts = true.
Proof.
  induction ts as [|t ts IH]; cbn [forallb].
  - split; [reflexivity|intros _; constructor].
  - split.
    + intros H.
      destruct (matches_cons_inv _ _ _ H) as (chunk & r & E & [_ Hlen] & Hr).
      symmetry in E. apply app_eq_nil in E. destruct E as [-> ->].
      apply andb_true_iff. split; [|apply IH; exact Hr].
      unfold nullable. destruct (token_quantifier t); cbn in Hlen;
        try reflexivity; lia.
    + intros H. apply andb_true_iff in H. destruct H as [Ht Hts].
      apply (matches_cons t ts [] []); [|apply IH; exact Hts].
      split; [constructor|]. unfold nullable in Ht.
      destruct (token_quantifier t); cbn; try lia; discriminate.
Qed.

Lemma matches_length (ts : list token) (m : str) :
  matches ts m ->
  min_length ts <= length m
  /\ (forallb bounded ts = true -> length m <= length ts).
Proof.
  induction 1 as [|t ts chunk r [_ Hlen] _ [IHmin IHmax]].
  - split; [apply Nat.le_0_l|reflexivity].
  - unfold min_length, nullable, bounded in *. cbn [filter forallb length].
    rewrite length_app.
    destruct (token_quantifier t); cbn [negb length andb]; split;
      try discriminate; try lia; intros Hb; specialize (IHmax Hb); lia.
Qed.

(** X14.  On the empty subject [regex_search] returns true exactly when
    every atom of the pattern without its anchors carries [?] or [*]. *)
Theorem search_on_empty_subject (p : str) :
  result (regex_search p []) = Ret true <->
  forallb nullable (tokens (core_pattern p)) = true.
Proof.
  rewrite search_language, <- matches_nil_iff. split.
  - intros (a & m & b & E & Hm & _). symmetry in E.
    apply app_eq_nil in E. destruct E as [_ E].
    apply app_eq_nil in E. destruct E as [-> _]. exact Hm.
  - intros Hm. exists [], [], []. auto.
Qed.

(** X15.  A match needs one subject character for each atom that carries
    no [?] or [*]: shorter subjects are rejected by both core matchers and by
    [regex_search]; and when no atom carries [*] or [+], the full matcher
    rejects every subject longer than the number of atoms. *)
Theorem match_length_bounds (p s : str) :
  (result (regex_match_full p s) = Ret true ->
   min_length (tokens p) <= len s
   /\ (forallb bounded (tokens p) = true -> len s <= length (tokens p)))
  /\ (result (regex_match_prefix p s) = Ret true ->
      min_length (tokens p) <= len s)
  /\ (result (regex_search p s) = Ret true ->
      min_length (tokens (core_pattern p)) <= len s).
Proof.
  split; [|split].
  - intros H. apply full_language in H. apply matches_length. exact H.
  - intros H. apply prefix_language in H. destruct H as (m & b & -> & Hm).
    apply matches_length in Hm. unfold len. rewrite length_app. lia.
  - intros H. apply search_language in H.
    destruct H as (a & m & b & -> & Hm & _).
    apply matches_length in Hm. unfold len. rewrite !length_app. lia.
Qed.
